(** * SeminarTracker: the change-tracking spreadsheet of WebMonitor.py

    A shallow embedding of [src/WebMonitor.py] and the properties of its
    reconciliation step [save_to_excel], of the scraper
    [scrape_seminar_page] and of the driver [main].

    The worksheet is the cell dictionary of openpyxl: a finite map from
    (row, column) to a cell that holds a value or [None].  Looking a cell
    up through [sheet.cell(row, column)] creates it when it is missing,
    and [sheet.max_row] is the largest row that owns a cell, or 1 on an
    empty sheet. *)

From stdpp Require Import gmap strings list fin_maps.

Open Scope Z_scope.

(** ** The worksheet *)

Module Sheet.

(** [ws._cells]: every created cell, with its value ([None] when empty). *)
Abbreviation t := (gmap (Z * Z) (option string)).

(** [sheet.cell(row, column).value] *)
Definition cell_value (s : t) (row column : Z) : option string :=
  match s !! (row, column) with
  | Some v => v
  | None => None
  end.

(** [sheet.cell(row, column)]: the cell is created when it is missing. *)
Definition get_cell (s : t) (row column : Z) : t :=
  match s !! (row, column) with
  | Some _ => s
  | None => <[(row, column) := None]> s
  end.

(** [sheet.cell(row, column, value=v)] for a string [v]. *)
Definition set_cell (s : t) (row column : Z) (v : string) : t :=
  <[(row, column) := Some v]> s.

(** [max(...)] over the row or column numbers of the cells, 1 without
    cells. *)
Definition max_index (l : list Z) : Z :=
  match l with
  | [] => 1
  | x :: xs => foldr Z.max x xs
  end.

(** [sheet.max_row] *)
Definition max_row (s : t) : Z :=
  max_index ((λ kv : Z * Z * option string, kv.1.1) <$> map_to_list s).

(** [sheet.max_column] *)
Definition max_column (s : t) : Z :=
  max_index ((λ kv : Z * Z * option string, kv.1.2) <$> map_to_list s).

End Sheet.

(** ** Exceptions

    The script catches [FileNotFoundError] only.  Any other exception
    ends the run: [IndexError] from a list access out of range, and the
    exceptions [requests.get] raises when no response arrives. *)

Inductive exn : Type :=
  | IndexError
  | RequestException.

Inductive result (A : Type) : Type :=
  | Ok (a : A)
  | Raise (e : exn).

Arguments Ok {A} a.
Arguments Raise {A} e.

Definition bind {A B : Type} (m : result A) (f : A → result B) : result B :=
  match m with
  | Ok a => f a
  | Raise e => Raise e
  end.

Notation "x ←! m ; k" := (bind m (λ x, k))
  (at level 20, m at level 100, k at level 200, right associativity,
   only parsing).

(** ** Constants of the script *)

Definition BASE_URL : string := "https://ekek.gr".
Definition LISTING_URL : string := "https://ekek.gr/seminaria/".

Definition ORGANIZER_LABEL : string := "Διοργανωτ".
Definition ORGANIZER_NAME : string := "Πανεπιστήμιο Πατρών".
Definition NO_NAME : string := "No seminar name found".
Definition NO_DETAILS : string := "No details found.".

(** ** What a response offers to the script

    The HTML queries of BeautifulSoup are taken as given: a response
    carries its status code and the answers to the queries the script
    makes on its text. *)

(** A [div] below an anchor: its [.string] and, when a sibling [div]
    follows it, the stripped text of that sibling. *)
Record div : Type := {
  div_string : option string;
  next_sibling_div : option string
}.

(** An element of [soup.select("a[href*='/seminaria/']")]. *)
Record anchor : Type := {
  href : option string;
  divs : list div
}.

Record response : Type := {
  status_code : Z;
  seminar_items : list anchor;      (* soup.select("a[href*='/seminaria/']") *)
  h1_text : option string;          (* soup.find('h1'), stripped text *)
  sidebar_text : option string      (* soup.find('div', class_='sidebar__inner gap'), text *)
}.

(** [needle in hay] on Python strings. *)
Fixpoint contains (needle hay : string) : bool :=
  String.prefix needle hay ||
  match hay with
  | EmptyString => false
  | String _ rest => contains needle rest
  end.

(** Truth value of a Python string: non-empty. *)
Definition truthy (s : string) : bool :=
  match s with
  | EmptyString => false
  | String _ _ => true
  end.

(** ** get_seminar_links *)

(** [seminar_item.find('div', string=lambda t: t and 'Διοργανωτ' in t)] *)
Definition is_organizer_label (d : div) : bool :=
  match div_string d with
  | Some t => truthy t && contains ORGANIZER_LABEL t
  | None => false
  end.

Definition find_organizer_label (item : anchor) : option div :=
  List.find is_organizer_label (divs item).

(** One turn of the loop over [seminar_items]. *)
Definition collect_link (seminar_links : list string) (item : anchor)
  : list string :=
  match find_organizer_label item with
  | Some organizer_label =>
      match next_sibling_div organizer_label with
      | Some organizer_value =>
          if contains ORGANIZER_NAME organizer_value then
            match href item with
            | Some h =>
                if truthy h && negb (String.prefix "#" h) then
                  let h' := if negb (String.prefix "http" h)
                            then (BASE_URL +:+ h)%string else h in
                  seminar_links ++ [h']
                else seminar_links
            | None => seminar_links
            end
          else seminar_links
      | None => seminar_links
      end
  | None => seminar_links
  end.

Definition get_seminar_links (requests_get : string → result response)
    (listing_url : string) : result (list string) :=
  response ←! requests_get listing_url;
  if decide (status_code response ≠ 200) then Ok []
  else Ok (foldl collect_link [] (seminar_items response)).

(** ** scrape_seminar_page

    The two Python lists are passed in and handed back. *)

Definition scrape_seminar_page (requests_get : string → result response)
    (seminar_url : string) (seminar_titles seminar_details : list string)
  : result (list string * list string) :=
  response ←! requests_get seminar_url;
  if decide (status_code response = 200) then
    let seminar_name :=
      match h1_text response with
      | Some name => name
      | None => NO_NAME
      end in
    let seminar_titles := seminar_titles ++ [seminar_name] in
    match sidebar_text response with
    | Some raw_text => Ok (seminar_titles, seminar_details ++ [raw_text])
    | None => Ok (seminar_titles, seminar_details ++ [NO_DETAILS])
    end
  else Ok (seminar_titles, seminar_details).

(** ** save_to_excel *)

(** The workbook created when [seminars.xlsx] does not exist. *)
Definition new_workbook : Sheet.t :=
  let sheet : Sheet.t := ∅ in
  let sheet := Sheet.set_cell sheet 1 2 "Seminar Title" in
  let sheet := Sheet.set_cell sheet 1 3 "Date of Execution" in
  let sheet := Sheet.set_cell sheet 1 4 "Seminar Details" in
  let sheet := Sheet.set_cell sheet 1 6 "Date of Update" in
  let sheet := Sheet.set_cell sheet 1 7 "New Seminar Details" in
  let sheet := Sheet.set_cell sheet 1 8 "Date of Update 2" in
  let sheet := Sheet.set_cell sheet 1 9 "New Seminar Details 2" in
  sheet.

(** [openpyxl.load_workbook(EXCEL_FILE)] with its [FileNotFoundError]
    handler; [file] is the worksheet stored in [seminars.xlsx], if any.
    Storing and loading are taken to give the worksheet back as it is. *)
Definition load_workbook (file : option Sheet.t) : Sheet.t :=
  match file with
  | Some sheet => sheet
  | None => new_workbook
  end.

(** [[sheet.cell(row=i, column=2).value for i in rows]] *)
Fixpoint read_titles (rows : list Z) (sheet : Sheet.t)
  : Sheet.t * list (option string) :=
  match rows with
  | [] => (sheet, [])
  | i :: rest =>
      let v := Sheet.cell_value sheet i 2 in
      let '(sheet', vs) := read_titles rest (Sheet.get_cell sheet i 2) in
      (sheet', v :: vs)
  end.

(** [range(2, sheet.max_row + 1)] *)
Definition data_rows (sheet : Sheet.t) : list Z :=
  seqZ 2 (Sheet.max_row sheet - 1).

Definition existing_titles (sheet : Sheet.t) : Sheet.t * list (option string) :=
  read_titles (data_rows sheet) sheet.

(** [existing_titles.index(title)], [None] when [title not in
    existing_titles]. *)
Definition index_of (title : string) (existing : list (option string))
  : option nat :=
  fst <$> list_find (λ x, x = Some title) existing.

(** The [while] loop that looks for the next empty update slot.  The
    loop runs on [fuel]; [slot_fuel] gives it more turns than the sheet
    has columns (see [find_slot_first_empty]). *)
Fixpoint find_slot (fuel : nat) (sheet : Sheet.t) (row last_column : Z)
  : Sheet.t * Z :=
  match fuel with
  | O => (sheet, last_column)
  | S fuel' =>
      match Sheet.cell_value sheet row last_column with
      | Some _ =>
          find_slot fuel' (Sheet.get_cell sheet row last_column) row
                    (last_column + 2)
      | None => (Sheet.get_cell sheet row last_column, last_column)
      end
  end.

Definition slot_fuel (sheet : Sheet.t) : nat :=
  S (Z.to_nat (Sheet.max_column sheet)).

(** The body of the loop over the candidates. *)
Definition save_candidate (existing : list (option string))
    (execution_date : string) (sheet : Sheet.t) (title details : string)
  : Sheet.t :=
  match index_of title existing with
  | Some index =>
      let row := Z.of_nat index + 2 in
      let '(sheet, last_column) := find_slot (slot_fuel sheet) sheet row 4 in
      let last_details := Sheet.cell_value sheet row (last_column - 1) in
      let sheet := Sheet.get_cell sheet row (last_column - 1) in
      if decide (Some details ≠ last_details) then
        let sheet := Sheet.set_cell sheet row last_column execution_date in
        Sheet.set_cell sheet row (last_column + 1) details
      else sheet
  | None =>
      let new_row := Sheet.max_row sheet + 1 in
      let sheet := Sheet.set_cell sheet new_row 2 title in
      let sheet := Sheet.set_cell sheet new_row 3 execution_date in
      Sheet.set_cell sheet new_row 4 details
  end.

(** [for i in range(len(seminar_titles))] over the indices [indices]. *)
Fixpoint save_loop (existing : list (option string)) (execution_date : string)
    (seminar_titles seminar_details : list string) (indices : list nat)
    (sheet : Sheet.t) : result Sheet.t :=
  match indices with
  | [] => Ok sheet
  | i :: rest =>
      title ←! from_option Ok (Raise IndexError) (seminar_titles !! i);
      details ←! from_option Ok (Raise IndexError) (seminar_details !! i);
      save_loop existing execution_date seminar_titles seminar_details rest
                (save_candidate existing execution_date sheet title details)
  end.

(** [save_to_excel]: [file] is the content of [seminars.xlsx] before the
    call and [execution_date] the formatted [datetime.now()]; the result
    is the worksheet handed to [wb.save]. *)
Definition save_to_excel (file : option Sheet.t) (execution_date : string)
    (seminar_titles seminar_details : list string) : result Sheet.t :=
  let sheet := load_workbook file in
  let '(sheet, existing) := existing_titles sheet in
  save_loop existing execution_date seminar_titles seminar_details
            (seq 0 (length seminar_titles)) sheet.

(** ** main *)

(** The loop over [seminar_links]; the [n]-th request of the run is
    answered by [requests_get n]. *)
Fixpoint scrape_all (requests_get : nat → string → result response) (n : nat)
    (seminar_links : list string) (seminar_titles seminar_details : list string)
  : result (list string * list string) :=
  match seminar_links with
  | [] => Ok (seminar_titles, seminar_details)
  | link :: rest =>
      lists ←! scrape_seminar_page (requests_get n) link
                 seminar_titles seminar_details;
      scrape_all requests_get (S n) rest lists.1 lists.2
  end.

(** What a run leaves behind: the exit status of the process, the
    content of [seminars.xlsx], and the two lists given to
    [save_to_excel] when it was called. *)
Record run : Type := {
  exit_status : Z;
  file_after : option Sheet.t;
  saved : option (list string * list string)
}.

Definition main (requests_get : nat → string → result response)
    (execution_date : string) (file : option Sheet.t) : run :=
  match get_seminar_links (requests_get O) LISTING_URL with
  | Raise _ => {| exit_status := 1; file_after := file; saved := None |}
  | Ok [] => {| exit_status := 0; file_after := file; saved := None |}
  | Ok seminar_links =>
      match scrape_all requests_get 1 seminar_links [] [] with
      | Raise _ => {| exit_status := 1; file_after := file; saved := None |}
      | Ok (seminar_titles, seminar_details) =>
          match save_to_excel file execution_date
                              seminar_titles seminar_details with
          | Ok sheet =>
              {| exit_status := 0; file_after := Some sheet;
                 saved := Some (seminar_titles, seminar_details) |}
          | Raise _ =>
              {| exit_status := 1; file_after := file;
                 saved := Some (seminar_titles, seminar_details) |}
          end
      end
  end.

(** ** Notions used by the statements *)

(** The columns the [while] loop looks at: 4, 6, 8, ... *)
Definition slot_column (k : nat) : Z := 4 + 2 * Z.of_nat k.

(** Where the content of version [j] of a record is written: the
    creation details in column 4 (the [else] branch), the details of the
    [j]-th update in column [last_column + 1] of its turn. *)
Definition content_column (j : nat) : Z :=
  match j with
  | O => 4
  | S _ => slot_column j + 1
  end.

(** Slots [0 .. k-1] of the row hold a value and slot [k] is empty: the
    loop over this row stops at [slot_column k]. *)
Definition first_empty (s : Sheet.t) (row : Z) (k : nat) : Prop :=
  (∀ j, (j < k)%nat → is_Some (Sheet.cell_value s row (slot_column j)))
  ∧ Sheet.cell_value s row (slot_column k) = None.

(** Column 2 of the data rows, without the cells the reading creates. *)
Definition titles_of (s : Sheet.t) : list (option string) :=
  (λ i, Sheet.cell_value s i 2) <$> data_rows s.

(** The loop of [save_to_excel] on paired lists. *)
Definition reconcile (existing : list (option string)) (execution_date : string)
    (s : Sheet.t) (batch : list (string * string)) : Sheet.t :=
  foldl (λ s c, save_candidate existing execution_date s c.1 c.2) s batch.

(** The titles of a batch that take the [else] branch. *)
Definition created (existing : list (option string)) (titles : list string)
  : list string :=
  filter (λ t, index_of t existing = None) titles.

(** The candidates of a batch that take the [else] branch. *)
Definition created_pairs (existing : list (option string))
    (batch : list (string * string)) : list (string * string) :=
  filter (λ c, index_of c.1 existing = None) batch.


(** The layout of the data rows that [save_to_excel] writes: a row with
    a title has its creation details in column 4, column 5 stays empty,
    and behind an empty slot the rest of the row is empty. *)
Definition well_formed (s : Sheet.t) : Prop :=
  ∀ row, 2 ≤ row →
    (is_Some (Sheet.cell_value s row 2) → is_Some (Sheet.cell_value s row 4))
    ∧ Sheet.cell_value s row 5 = None
    ∧ ∀ k, Sheet.cell_value s row (slot_column k) = None →
           Sheet.cell_value s row (slot_column k + 1) = None
           ∧ Sheet.cell_value s row (slot_column (S k)) = None.

(** [existing] was read from column 2 of the first data rows of [s]:
    what the loop of [save_to_excel] knows about its list
    [existing_titles] at every turn. *)
Definition snapshot (existing : list (option string)) (s : Sheet.t) : Prop :=
  (∀ index, (index < length existing)%nat →
     Z.of_nat index + 2 ≤ Sheet.max_row s)
  ∧ (∀ index x, existing !! index = Some x →
       Sheet.cell_value s (Z.of_nat index + 2) 2 = x).

(** The call wrote the pair of cells in the columns [a] and [b] of the
    row, and nothing else in that row. *)
Definition pair_written (a b : Z) (before after : Sheet.t) (row : Z)
    (execution_date details : string) : Prop :=
  ∀ c, Sheet.cell_value after row c =
         if decide (c = a) then Some execution_date
         else if decide (c = b) then Some details
         else Sheet.cell_value before row c.

(** ** The scenarios of the specification *)

Definition T1 : string := "2024-01-01 10:00:00".
Definition T2 : string := "2024-01-02 10:00:00".
Definition T3 : string := "2024-01-03 10:00:00".

(** [seminars.xlsx] after a call of [save_to_excel]. *)
Definition stored (file : option Sheet.t) (r : result Sheet.t)
  : option Sheet.t :=
  match r with
  | Ok sheet => Some sheet
  | Raise _ => file
  end.

(** Scenario A: no file yet, one candidate. *)
Definition file_A : option Sheet.t :=
  stored None (save_to_excel None T1 ["Seminar X"] ["details v1"]).

(** Scenario B: the same candidate again. *)
Definition file_B : option Sheet.t :=
  stored file_A (save_to_excel file_A T2 ["Seminar X"] ["details v1"]).

(** Scenario C: the candidate with new details. *)
Definition file_C : option Sheet.t :=
  stored file_A (save_to_excel file_A T2 ["Seminar X"] ["details v2"]).

(** The same new title twice in one batch. *)
Definition file_twice : option Sheet.t :=
  stored None (save_to_excel None T1 ["Seminar X"; "Seminar X"]
                             ["details v1"; "details v1"]).

(** Scenario A with a note typed into G2 by hand: a row that does not
    have the layout of [well_formed]. *)
Definition file_edited : option Sheet.t :=
  Some (Sheet.set_cell (load_workbook file_A) 2 7 "note").

(** [seminars.xlsx] after a sequence of calls, each with its timestamp
    and its two lists. *)
Fixpoint after_calls (file : option Sheet.t)
    (calls : list (string * (list string * list string))) : option Sheet.t :=
  match calls with
  | [] => file
  | (execution_date, (seminar_titles, seminar_details)) :: rest =>
      after_calls
        (stored file (save_to_excel file execution_date
                                    seminar_titles seminar_details))
        rest
  end.

(** ** Notions and scenarios of a run *)

(** The candidate that [scrape_seminar_page] makes of a page. *)
Definition candidate_title (r : response) : string :=
  default NO_NAME (h1_text r).

Definition candidate_details (r : response) : string :=
  default NO_DETAILS (sidebar_text r).

(** The answers the loop over [seminar_links] gets, request by request. *)
Fixpoint answers (requests_get : nat → string → result response) (n : nat)
    (seminar_links : list string) : list (result response) :=
  match seminar_links with
  | [] => []
  | link :: rest => requests_get n link :: answers requests_get (S n) rest
  end.

(** A listing with one seminar of the University of Patras. *)
Definition patras_item : anchor :=
  {| href := Some "/seminaria/logic/"%string;
     divs := [ {| div_string := Some "Διοργανωτής"%string;
                  next_sibling_div := Some "Πανεπιστήμιο Πατρών"%string |} ] |}.

Definition listing_page : response :=
  {| status_code := 200; seminar_items := [patras_item];
     h1_text := None; sidebar_text := None |}.

Definition seminar_page : response :=
  {| status_code := 200; seminar_items := [];
     h1_text := Some "Seminar X"%string;
     sidebar_text := Some "details v1"%string |}.

Definition not_found : response :=
  {| status_code := 404; seminar_items := [];
     h1_text := None; sidebar_text := None |}.

(** The listing and the page of the seminar are both served. *)
Definition web_up (n : nat) (url : string) : result response :=
  match n with
  | O => Ok listing_page
  | S _ => Ok seminar_page
  end.

(** The listing is served, the page of the seminar is not. *)
Definition web_page_missing (n : nat) (url : string) : result response :=
  match n with
  | O => Ok listing_page
  | S _ => Ok not_found
  end.


(** ** Notions for the links of the listing *)

(** What makes [get_seminar_links] keep an anchor, and the link it keeps
    for it: the first [div] whose string holds the organizer label is
    followed by a [div] that names the University of Patras, and the
    anchor has a non-empty [href] that is no fragment; the link is the
    [href], behind [BASE_URL] when it does not start with "http". *)
Definition patras_link (item : anchor) (link : string) : Prop :=
  ∃ label value h,
    find_organizer_label item = Some label
    ∧ next_sibling_div label = Some value
    ∧ contains ORGANIZER_NAME value = true
    ∧ href item = Some h
    ∧ h ≠ ""%string
    ∧ String.prefix "#" h = false
    ∧ link = if String.prefix "http" h then h else (BASE_URL +:+ h)%string.

(** ** Facts about the worksheet *)

Module SheetFacts.
Import Sheet.

Lemma cell_value_get_cell (s : t) r c r' c' :
  cell_value (get_cell s r c) r' c' = cell_value s r' c'.
Proof.
  unfold get_cell, cell_value.
  destruct (s !! (r, c)) eqn:E; [done|].
  destruct (decide ((r, c) = (r', c'))) as [<-|Hne].
  - by rewrite lookup_insert_eq, E.
  - by rewrite lookup_insert_ne.
Qed.

Lemma cell_value_set_cell (s : t) r c v r' c' :
  cell_value (set_cell s r c v) r' c' =
    if decide (r = r' ∧ c = c') then Some v else cell_value s r' c'.
Proof.
  unfold set_cell, cell_value. case_decide as H.
  - destruct H as [-> ->]. by rewrite lookup_insert_eq.
  - rewrite lookup_insert_ne; [done|]. intros [= -> ->]. by apply H.
Qed.

Lemma cell_value_is_Some (s : t) r c v :
  cell_value s r c = Some v → is_Some (s !! (r, c)).
Proof. unfold cell_value. destruct (s !! (r, c)); [eauto|done]. Qed.

Lemma max_index_ge (l : list Z) x : x ∈ l → x ≤ max_index l.
Proof.
  destruct l as [|y l]; [by intros ?%elem_of_nil|]. simpl.
  induction l as [|z l IH]; simpl; intros Hx.
  - apply list_elem_of_singleton in Hx. lia.
  - assert (x = z ∨ x ∈ y :: l) as [->|Hx'].
    { rewrite !elem_of_cons in Hx. rewrite elem_of_cons. tauto. }
    + lia.
    + specialize (IH Hx'). lia.
Qed.

Lemma max_index_elem (l : list Z) : l ≠ [] → max_index l ∈ l.
Proof.
  destruct l as [|y l]; [done|]. intros _. simpl.
  induction l as [|z l IH]; simpl; [apply list_elem_of_here|].
  destruct (Z.max_spec z (foldr Z.max y l)) as [[_ ->]|[_ ->]].
  - apply elem_of_cons in IH as [->|IH]; [apply list_elem_of_here|].
    by do 2 apply list_elem_of_further.
  - apply list_elem_of_further, list_elem_of_here.
Qed.

Lemma max_row_ge (s : t) r c : is_Some (s !! (r, c)) → r ≤ max_row s.
Proof.
  intros [v Hv]. apply max_index_ge, list_elem_of_fmap.
  exists ((r, c), v). split; [done|]. by apply elem_of_map_to_list.
Qed.

Lemma max_column_ge (s : t) r c : is_Some (s !! (r, c)) → c ≤ max_column s.
Proof.
  intros [v Hv]. apply max_index_ge, list_elem_of_fmap.
  exists ((r, c), v). split; [done|]. by apply elem_of_map_to_list.
Qed.

Lemma max_row_empty : max_row (∅ : t) = 1.
Proof. unfold max_row. by rewrite map_to_list_empty. Qed.

Lemma max_row_attained (s : t) :
  s ≠ ∅ → ∃ c, is_Some (s !! (max_row s, c)).
Proof.
  intros Hs. unfold max_row.
  set (l := (λ kv : Z * Z * option string, kv.1.1) <$> map_to_list s).
  assert (l ≠ []) as Hl.
  { unfold l. intros H%fmap_nil_inv. by apply map_to_list_empty_iff in H. }
  apply max_index_elem, list_elem_of_fmap in Hl as ([[r c] v] & Hr & Hin).
  apply elem_of_map_to_list in Hin. simpl in Hr. exists c. rewrite Hr. eauto.
Qed.

Lemma max_row_intro (s : t) m :
  (∃ c, is_Some (s !! (m, c))) →
  (∀ r c, is_Some (s !! (r, c)) → r ≤ m) →
  max_row s = m.
Proof.
  intros [c Hc] Hub. assert (s ≠ ∅) as Hs.
  { intros ->. rewrite lookup_empty in Hc. by destruct Hc. }
  destruct (max_row_attained s Hs) as [c' Hc'].
  apply Hub in Hc'. apply max_row_ge in Hc. lia.
Qed.

Lemma max_row_insert (s : t) r c x :
  s ≠ ∅ ∨ 1 ≤ r →
  max_row (<[(r, c) := x]> s) = Z.max r (max_row s).
Proof.
  intros Hr. apply max_row_intro.
  - destruct (decide (max_row s ≤ r)) as [Hle|Hgt].
    + exists c. rewrite Z.max_l by done. rewrite lookup_insert_eq. eauto.
    + assert (s ≠ ∅) as Hs.
      { intros ->. rewrite max_row_empty in Hgt. destruct Hr; [done|lia]. }
      destruct (max_row_attained s Hs) as [c' Hc'].
      exists c'. rewrite Z.max_r by lia.
      rewrite lookup_insert_ne; [done|]. intros [= ? ?]. lia.
  - intros r' c' Hin. destruct (decide ((r, c) = (r', c'))) as [[= <- <-]|Hne].
    + lia.
    + rewrite lookup_insert_ne in Hin by done. apply max_row_ge in Hin. lia.
Qed.

Lemma max_row_get_cell (s : t) r c :
  1 ≤ r ≤ max_row s → max_row (get_cell s r c) = max_row s.
Proof.
  intros Hr. unfold get_cell. destruct (s !! (r, c)); [done|].
  rewrite max_row_insert by lia. lia.
Qed.

Lemma max_row_set_cell (s : t) r c v :
  1 ≤ r → max_row (set_cell s r c v) = Z.max r (max_row s).
Proof. intros Hr. unfold set_cell. apply max_row_insert. by right. Qed.

Lemma max_row_set_cell_next (s : t) c v :
  max_row (set_cell s (max_row s + 1) c v) = max_row s + 1.
Proof.
  unfold set_cell. destruct (decide (s = ∅)) as [->|Hs].
  - rewrite max_row_empty. rewrite max_row_insert by (right; lia).
    rewrite max_row_empty. lia.
  - rewrite max_row_insert by (by left). lia.
Qed.

Lemma above_max_row (s : t) r c : max_row s < r → cell_value s r c = None.
Proof.
  intros Hr. destruct (cell_value s r c) eqn:E; [|done].
  apply cell_value_is_Some, max_row_ge in E. lia.
Qed.

Lemma beyond_max_column (s : t) r c :
  max_column s < c → cell_value s r c = None.
Proof.
  intros Hc. destruct (cell_value s r c) eqn:E; [|done].
  apply cell_value_is_Some, max_column_ge in E. lia.
Qed.

End SheetFacts.

(** ** Facts about the reading steps of [save_to_excel] *)

Section Reading.
Import Sheet SheetFacts.

Lemma read_titles_values (rows : list Z) (s : Sheet.t) (r c : Z) :
  cell_value (read_titles rows s).1 r c = cell_value s r c.
Proof.
  revert s. induction rows as [|i rows IH]; intros s; simpl; [done|].
  specialize (IH (get_cell s i 2)).
  destruct (read_titles rows (get_cell s i 2)) as [s' vs]. simpl in *.
  by rewrite IH, cell_value_get_cell.
Qed.

Lemma read_titles_list (rows : list Z) (s : Sheet.t) :
  (read_titles rows s).2 = (λ i, cell_value s i 2) <$> rows.
Proof.
  revert s. induction rows as [|i rows IH]; intros s; simpl; [done|].
  specialize (IH (get_cell s i 2)).
  destruct (read_titles rows (get_cell s i 2)) as [s' vs]. simpl in *.
  rewrite IH. f_equal. apply list_fmap_ext. intros _ j _.
  apply cell_value_get_cell.
Qed.

Lemma read_titles_max_row (rows : list Z) (s : Sheet.t) :
  Forall (λ i, 1 ≤ i ≤ max_row s) rows →
  max_row (read_titles rows s).1 = max_row s.
Proof.
  revert s. induction rows as [|i rows IH]; intros s Hrows; simpl; [done|].
  apply Forall_cons in Hrows as [Hi Hrows].
  specialize (IH (get_cell s i 2)).
  destruct (read_titles rows (get_cell s i 2)) as [s' vs]. simpl in *.
  rewrite IH; rewrite max_row_get_cell by done; done.
Qed.

Lemma data_rows_bounds (s : Sheet.t) :
  Forall (λ i, 1 ≤ i ≤ max_row s) (data_rows s).
Proof.
  apply Forall_forall. intros i Hi. unfold data_rows in Hi.
  apply elem_of_seqZ in Hi. lia.
Qed.

Lemma length_titles_of (s : Sheet.t) :
  length (titles_of s) = Z.to_nat (max_row s - 1).
Proof. unfold titles_of, data_rows. by rewrite length_fmap, length_seqZ. Qed.

Lemma lookup_titles_of (s : Sheet.t) (i : nat) :
  (i < length (titles_of s))%nat →
  titles_of s !! i = Some (cell_value s (Z.of_nat i + 2) 2).
Proof.
  rewrite length_titles_of. intros Hi. unfold titles_of, data_rows.
  rewrite list_lookup_fmap, lookup_seqZ_lt by lia. simpl.
  do 2 f_equal. lia.
Qed.

Lemma existing_titles_list (s : Sheet.t) :
  (existing_titles s).2 = titles_of s.
Proof. apply read_titles_list. Qed.

Lemma existing_titles_values (s : Sheet.t) r c :
  cell_value (existing_titles s).1 r c = cell_value s r c.
Proof. apply read_titles_values. Qed.

Lemma existing_titles_max_row (s : Sheet.t) :
  max_row (existing_titles s).1 = max_row s.
Proof. apply read_titles_max_row, data_rows_bounds. Qed.

(** [existing_titles.index] *)

Lemma index_of_Some title existing i :
  index_of title existing = Some i →
  existing !! i = Some (Some title) ∧ (i < length existing)%nat.
Proof.
  unfold index_of. destruct (list_find _ existing) as [[j x]|] eqn:E; [|done].
  intros [= <-]. apply list_find_Some in E as (Hj & -> & _).
  split; [done|]. by apply lookup_lt_Some in Hj.
Qed.


Lemma index_of_inj t t' existing i :
  index_of t existing = Some i → index_of t' existing = Some i → t = t'.
Proof.
  intros [H _]%index_of_Some [H' _]%index_of_Some. congruence.
Qed.

(** The [while] loop *)

Lemma find_slot_values (fuel : nat) (s : Sheet.t) (row lc r c : Z) :
  cell_value (find_slot fuel s row lc).1 r c = cell_value s r c.
Proof.
  revert s lc. induction fuel as [|n IH]; intros s lc; simpl; [done|].
  destruct (cell_value s row lc) eqn:E; simpl.
  - by rewrite IH, cell_value_get_cell.
  - by rewrite cell_value_get_cell.
Qed.

Lemma find_slot_max_row (fuel : nat) (s : Sheet.t) (row lc : Z) :
  1 ≤ row ≤ max_row s → max_row (find_slot fuel s row lc).1 = max_row s.
Proof.
  revert s lc. induction fuel as [|n IH]; intros s lc Hrow; simpl; [done|].
  destruct (cell_value s row lc) eqn:E; simpl.
  - rewrite IH; rewrite max_row_get_cell by done; done.
  - by rewrite max_row_get_cell.
Qed.

Lemma find_slot_column (fuel : nat) (s : Sheet.t) (row lc : Z) :
  (∀ c, lc + 2 * Z.of_nat fuel ≤ c → cell_value s row c = None) →
  ∃ k : nat,
    (find_slot fuel s row lc).2 = lc + 2 * Z.of_nat k
    ∧ (∀ j : nat, (j < k)%nat →
         is_Some (cell_value s row (lc + 2 * Z.of_nat j)))
    ∧ cell_value s row (lc + 2 * Z.of_nat k) = None.
Proof.
  revert s lc. induction fuel as [|n IH]; intros s lc Hend; simpl.
  - exists O. split; [lia|]. split; [lia|]. apply Hend. lia.
  - destruct (cell_value s row lc) as [v|] eqn:E; simpl.
    + destruct (IH (get_cell s row lc) (lc + 2)) as (k & Hk & Hfull & Hnone).
      { intros c Hc. rewrite cell_value_get_cell. apply Hend. lia. }
      exists (S k). split; [lia|]. split.
      * intros [|j] Hj.
        -- replace (lc + 2 * Z.of_nat 0) with lc by lia. rewrite E. eauto.
        -- specialize (Hfull j ltac:(lia)).
           rewrite cell_value_get_cell in Hfull.
           by replace (lc + 2 * Z.of_nat (S j))
             with (lc + 2 + 2 * Z.of_nat j) by lia.
      * rewrite cell_value_get_cell in Hnone.
        by replace (lc + 2 * Z.of_nat (S k))
          with (lc + 2 + 2 * Z.of_nat k) by lia.
    + exists O. split; [lia|]. split; [lia|].
      by replace (lc + 2 * Z.of_nat 0) with lc by lia.
Qed.

(** With [slot_fuel] turns the loop ends at the first empty slot. *)
Lemma find_slot_first_empty (s : Sheet.t) row :
  ∃ k, (find_slot (slot_fuel s) s row 4).2 = slot_column k
       ∧ first_empty s row k.
Proof.
  destruct (find_slot_column (slot_fuel s) s row 4) as (k & Hk & Hfull & Hnone).
  { intros c Hc. apply beyond_max_column. unfold slot_fuel in Hc. lia. }
  exists k. by repeat split.
Qed.

Lemma first_empty_unique (s : Sheet.t) row k k' :
  first_empty s row k → first_empty s row k' → k = k'.
Proof.
  intros [Hfull Hnone] [Hfull' Hnone'].
  destruct (Nat.lt_trichotomy k k') as [Hlt|[->|Hlt]]; [|done|].
  - apply Hfull' in Hlt. rewrite Hnone in Hlt. by destruct Hlt.
  - apply Hfull in Hlt. rewrite Hnone' in Hlt. by destruct Hlt.
Qed.

Lemma first_empty_exists (s : Sheet.t) row : ∃ k, first_empty s row k.
Proof. destruct (find_slot_first_empty s row) as (k & _ & H). eauto. Qed.

End Reading.

(** ** One turn of the loop of [save_to_excel] *)

Section Step.
Import Sheet SheetFacts.
Variable existing : list (option string).
Variable now : string.

Lemma save_candidate_new (s : Sheet.t) (t d : string) :
  index_of t existing = None →
  max_row (save_candidate existing now s t d) = max_row s + 1
  ∧ ∀ r c, cell_value (save_candidate existing now s t d) r c =
      if decide (r = max_row s + 1 ∧ c = 2) then Some t
      else if decide (r = max_row s + 1 ∧ c = 3) then Some now
      else if decide (r = max_row s + 1 ∧ c = 4) then Some d
      else cell_value s r c.
Proof.
  intros Hnew. unfold save_candidate. rewrite Hnew. split.
  - unfold set_cell at 1 2.
    rewrite !max_row_insert by (left; apply insert_non_empty).
    rewrite max_row_set_cell_next. lia.
  - intros r c. rewrite !cell_value_set_cell.
    repeat case_decide; try done; lia.
Qed.

Lemma save_candidate_existing (s : Sheet.t) (t d : string) index k :
  index_of t existing = Some index →
  first_empty s (Z.of_nat index + 2) k →
  (Z.of_nat index + 2 ≤ max_row s →
   max_row (save_candidate existing now s t d) = max_row s)
  ∧ ∀ r c, cell_value (save_candidate existing now s t d) r c =
      if decide (Some d ≠ cell_value s (Z.of_nat index + 2) (slot_column k - 1))
      then
        if decide (r = Z.of_nat index + 2 ∧ c = slot_column k) then Some now
        else if decide (r = Z.of_nat index + 2 ∧ c = slot_column k + 1)
             then Some d
             else cell_value s r c
      else cell_value s r c.
Proof.
  intros Hidx Hk. unfold save_candidate. rewrite Hidx.
  set (row := Z.of_nat index + 2).
  destruct (find_slot_first_empty s row) as (k' & Hcol & Hk').
  assert (k' = k) as -> by eauto using first_empty_unique.
  pose proof (find_slot_values (slot_fuel s) s row 4) as Hval.
  pose proof (find_slot_max_row (slot_fuel s) s row 4) as Hmax.
  destruct (find_slot (slot_fuel s) s row 4) as [s1 lc]. simpl in *.
  subst lc. rewrite Hval. split.
  - intros Hrow. specialize (Hmax ltac:(lia)).
    case_decide.
    + rewrite !max_row_set_cell, max_row_get_cell by lia. lia.
    + rewrite max_row_get_cell by lia. done.
  - intros r c. case_decide.
    + rewrite !cell_value_set_cell, cell_value_get_cell, Hval.
      repeat case_decide; try done; lia.
    + by rewrite cell_value_get_cell, Hval.
Qed.

(** A turn leaves every row alone but the one of its title. *)
Lemma save_candidate_frame (s : Sheet.t) (t d : string) r c :
  r ≤ max_row s →
  (∀ index, index_of t existing = Some index → r ≠ Z.of_nat index + 2) →
  cell_value (save_candidate existing now s t d) r c = cell_value s r c.
Proof.
  intros Hr Hrow. destruct (index_of t existing) as [index|] eqn:Hidx.
  - destruct (first_empty_exists s (Z.of_nat index + 2)) as [k Hk].
    destruct (save_candidate_existing s t d index k Hidx Hk) as [_ ->].
    specialize (Hrow index eq_refl). repeat case_decide; try done; lia.
  - destruct (save_candidate_new s t d Hidx) as [_ ->].
    repeat case_decide; try done; lia.
Qed.

Lemma save_candidate_max_row (s : Sheet.t) (t d : string) :
  snapshot existing s →
  max_row (save_candidate existing now s t d) =
    max_row s + Z.of_nat (length (created existing [t])).
Proof.
  intros [Hcov _]. unfold created. 
  destruct (index_of t existing) as [index|] eqn:Hidx.
  - rewrite filter_cons_False by (by rewrite Hidx). simpl.
    destruct (first_empty_exists s (Z.of_nat index + 2)) as [k Hk].
    destruct (save_candidate_existing s t d index k Hidx Hk) as [-> _]; [lia|].
    apply Hcov. by apply index_of_Some in Hidx as [_ ?].
  - rewrite filter_cons_True by done. simpl.
    destruct (save_candidate_new s t d Hidx) as [-> _]. lia.
Qed.

(** Column 2 of the rows that exist is never written. *)
Lemma save_candidate_titles (s : Sheet.t) (t d : string) r :
  r ≤ max_row s →
  cell_value (save_candidate existing now s t d) r 2 = cell_value s r 2.
Proof.
  intros Hr. destruct (index_of t existing) as [index|] eqn:Hidx.
  - destruct (first_empty_exists s (Z.of_nat index + 2)) as [k Hk].
    destruct (save_candidate_existing s t d index k Hidx Hk) as [_ ->].
    unfold slot_column. repeat case_decide; try done; lia.
  - destruct (save_candidate_new s t d Hidx) as [_ ->].
    repeat case_decide; try done; lia.
Qed.

Lemma save_candidate_snapshot (s : Sheet.t) (t d : string) :
  snapshot existing s → snapshot existing (save_candidate existing now s t d).
Proof.
  intros Hsnap. pose proof Hsnap as [Hcov Hagree]. split.
  - intros index Hlt. rewrite save_candidate_max_row by done.
    specialize (Hcov index Hlt). lia.
  - intros index x Hx. rewrite save_candidate_titles; [by apply Hagree|].
    apply Hcov. by apply lookup_lt_Some in Hx.
Qed.

End Step.

(** ** The layout is kept and nothing is overwritten *)

Section Layout.
Import Sheet SheetFacts.
Variable existing : list (option string).
Variable now : string.

Lemma well_formed_values (s s' : Sheet.t) :
  (∀ r c, cell_value s' r c = cell_value s r c) →
  well_formed s → well_formed s'.
Proof.
  intros Hval Hwf row Hrow. destruct (Hwf row Hrow) as (Ha & Hb & Hc).
  split; [|split].
  - by rewrite !Hval.
  - by rewrite Hval.
  - intros k. rewrite !Hval. apply Hc.
Qed.

(** On a well-formed sheet an existing title has at least its creation
    version. *)
Lemma first_empty_positive (s : Sheet.t) (t : string) index k :
  snapshot existing s → well_formed s →
  index_of t existing = Some index →
  first_empty s (Z.of_nat index + 2) k →
  (0 < k)%nat.
Proof.
  intros [_ Hagree] Hwf [Hidx _]%index_of_Some [_ Hnone].
  destruct (Hwf (Z.of_nat index + 2) ltac:(lia)) as (Ha & _ & _).
  apply Hagree in Hidx. rewrite Hidx in Ha.
  destruct k; [|lia]. change (slot_column 0) with 4 in Hnone.
  rewrite Hnone in Ha. destruct Ha as [? ?]; [eauto|done].
Qed.

Lemma save_candidate_keeps (s : Sheet.t) (t d : string) r c v :
  well_formed s →
  cell_value s r c = Some v →
  cell_value (save_candidate existing now s t d) r c = Some v.
Proof.
  intros Hwf Hv. destruct (index_of t existing) as [index|] eqn:Hidx.
  - destruct (first_empty_exists s (Z.of_nat index + 2)) as [k Hk].
    destruct (save_candidate_existing existing now s t d index k Hidx Hk)
      as [_ ->].
    destruct Hk as [_ Hnone].
    destruct (Hwf (Z.of_nat index + 2) ltac:(lia)) as (_ & _ & Hc).
    destruct (Hc k Hnone) as [Hnone' _].
    repeat case_decide; try done;
      match goal with H : _ = _ ∧ _ = _ |- _ => destruct H as [-> ->] end;
      congruence.
  - destruct (save_candidate_new existing now s t d Hidx) as [_ ->].
    assert (r ≤ max_row s).
    { apply cell_value_is_Some in Hv. by eapply max_row_ge. }
    repeat case_decide; try done; lia.
Qed.

Lemma save_candidate_well_formed (s : Sheet.t) (t d : string) :
  snapshot existing s → well_formed s →
  well_formed (save_candidate existing now s t d).
Proof.
  intros Hsnap Hwf. destruct (index_of t existing) as [index|] eqn:Hidx.
  - destruct (first_empty_exists s (Z.of_nat index + 2)) as [k Hk].
    pose proof (first_empty_positive s t index k Hsnap Hwf Hidx Hk) as Hpos.
    destruct (save_candidate_existing existing now s t d index k Hidx Hk)
      as [_ Hval].
    destruct (decide (Some d ≠
      cell_value s (Z.of_nat index + 2) (slot_column k - 1))) as [Hne|Heq];
      [|by eapply well_formed_values].
    destruct Hk as [Hfull Hnone].
    intros row Hrow. destruct (Hwf row Hrow) as (Ha & Hb & Hc).
    unfold slot_column in *. split; [|split].
    + rewrite !Hval. intros H2.
      repeat case_decide; try done; try lia; eauto.
    + rewrite Hval. repeat case_decide; try done; lia.
    + intros j Hj. rewrite Hval in Hj. rewrite !Hval.
      destruct (decide (row = Z.of_nat index + 2)) as [->|Hother].
      * assert (cell_value s (Z.of_nat index + 2) (4 + 2 * Z.of_nat j) = None)
          as Hj' by (repeat case_decide; try done; lia).
        assert (k < j)%nat as Hlt.
        { destruct (decide (j < k)%nat) as [Hjk|Hjk].
          - apply Hfull in Hjk. rewrite Hj' in Hjk. by destruct Hjk.
          - assert (j ≠ k); [|lia]. intros ->.
            repeat case_decide; try done; lia. }
        destruct (Hc j Hj') as [H1 H2].
        split; repeat case_decide; try done; lia.
      * assert (cell_value s row (4 + 2 * Z.of_nat j) = None)
          as Hj' by (repeat case_decide; try done; lia).
        destruct (Hc j Hj') as [H1 H2].
        split; repeat case_decide; try done; lia.
  - destruct (save_candidate_new existing now s t d Hidx) as [_ Hval].
    intros row Hrow. destruct (Hwf row Hrow) as (Ha & Hb & Hc).
    unfold slot_column in *.
    destruct (decide (row = max_row s + 1)) as [->|Hother].
    + assert (∀ c, cell_value s (max_row s + 1) c = None) as Hempty.
      { intros c. apply above_max_row. lia. }
      split; [|split].
      * intros _. rewrite Hval. repeat case_decide; try done; try lia; eauto.
      * rewrite Hval. repeat case_decide; try done; lia.
      * intros j Hj. rewrite Hval in Hj. rewrite !Hval.
        assert (j ≠ O).
        { intros ->. repeat case_decide; try done; lia. }
        split; repeat case_decide; try done; lia.
    + split; [|split].
      * rewrite !Hval. repeat case_decide; try done; lia.
      * rewrite Hval. repeat case_decide; try done; lia.
      * intros j Hj. rewrite Hval in Hj. rewrite !Hval.
        assert (cell_value s row (4 + 2 * Z.of_nat j) = None)
          as Hj' by (repeat case_decide; try done; lia).
        destruct (Hc j Hj') as [H1 H2].
        split; repeat case_decide; try done; lia.
Qed.

End Layout.

(** ** The whole loop of [save_to_excel] *)

Section Batch.
Import Sheet SheetFacts.
Variable existing : list (option string).
Variable now : string.

Lemma reconcile_app (s : Sheet.t) (b1 b2 : list (string * string)) :
  reconcile existing now s (b1 ++ b2) =
  reconcile existing now (reconcile existing now s b1) b2.
Proof. apply foldl_app. Qed.

Lemma created_cons (t : string) (l : list string) :
  created existing (t :: l) = created existing [t] ++ created existing l.
Proof.
  unfold created. destruct (decide (index_of t existing = None)) as [H|H].
  - by rewrite !filter_cons_True.
  - by rewrite !filter_cons_False.
Qed.

Lemma created_pairs_titles (batch : list (string * string)) :
  (created_pairs existing batch).*1 = created existing batch.*1.
Proof.
  unfold created_pairs, created.
  induction batch as [|[t d] batch IH]; [done|]. rewrite fmap_cons.
  destruct (decide (index_of t existing = None)) as [H|H].
  - rewrite !filter_cons_True by done. rewrite fmap_cons. by rewrite IH.
  - rewrite !filter_cons_False by done. done.
Qed.

Lemma reconcile_snapshot (s : Sheet.t) (batch : list (string * string)) :
  snapshot existing s → snapshot existing (reconcile existing now s batch).
Proof.
  revert s. induction batch as [|[t d] batch IH]; intros s Hs; [done|].
  simpl. by apply IH, save_candidate_snapshot.
Qed.

Lemma reconcile_keeps (s : Sheet.t) (batch : list (string * string)) r c v :
  snapshot existing s → well_formed s →
  cell_value s r c = Some v →
  cell_value (reconcile existing now s batch) r c = Some v.
Proof.
  revert s. induction batch as [|[t d] batch IH]; intros s Hs Hwf Hv; [done|].
  simpl. apply IH.
  - by apply save_candidate_snapshot.
  - by apply save_candidate_well_formed.
  - by apply save_candidate_keeps.
Qed.

Lemma reconcile_max_row (s : Sheet.t) (batch : list (string * string)) :
  snapshot existing s →
  max_row (reconcile existing now s batch) =
    max_row s + Z.of_nat (length (created existing batch.*1)).
Proof.
  revert s. induction batch as [|[t d] batch IH]; intros s Hs.
  - change (created existing []) with (@nil string). simpl. lia.
  - change (reconcile existing now s ((t, d) :: batch))
      with (reconcile existing now (save_candidate existing now s t d) batch).
    rewrite IH by (by apply save_candidate_snapshot).
    rewrite save_candidate_max_row by done.
    rewrite fmap_cons, (created_cons t (batch.*1)), length_app. lia.
Qed.

Lemma reconcile_frame (s : Sheet.t) (batch : list (string * string)) r c :
  snapshot existing s →
  r ≤ max_row s →
  (∀ t index, t ∈ batch.*1 → index_of t existing = Some index →
              r ≠ Z.of_nat index + 2) →
  cell_value (reconcile existing now s batch) r c = cell_value s r c.
Proof.
  revert s. induction batch as [|[t d] batch IH]; intros s Hs Hr Hrow; [done|].
  simpl. rewrite IH.
  - apply save_candidate_frame; [done|].
    intros index. apply Hrow. simpl. apply list_elem_of_here.
  - by apply save_candidate_snapshot.
  - rewrite save_candidate_max_row by done. lia.
  - intros t' index Hin. apply Hrow. simpl. by apply list_elem_of_further.
Qed.


(** The [j]-th candidate with a new title fills the [j]-th row below
    the table, and only columns 2 to 4 of it. *)
Lemma reconcile_created_row (s : Sheet.t) (batch : list (string * string))
    (j : nat) (t d : string) :
  snapshot existing s →
  created_pairs existing batch !! j = Some (t, d) →
  ∀ c, cell_value (reconcile existing now s batch)
                  (max_row s + 1 + Z.of_nat j) c =
         if decide (c = 2) then Some t
         else if decide (c = 3) then Some now
         else if decide (c = 4) then Some d
         else None.
Proof.
  revert s j. induction batch as [|[t' d'] batch IH]; intros s j Hs Hj c.
  { change (created_pairs existing []) with (@nil (string * string)) in Hj.
    by rewrite lookup_nil in Hj. }
  change (reconcile existing now s ((t', d') :: batch))
    with (reconcile existing now (save_candidate existing now s t' d') batch).
  unfold created_pairs in Hj.
  pose proof Hs as [Hcov _].
  pose proof (save_candidate_snapshot existing now s t' d' Hs) as Hs'.
  destruct (index_of t' existing) as [index|] eqn:Hidx.
  - rewrite filter_cons_False in Hj by (simpl; by rewrite Hidx).
    specialize (IH _ j Hs' Hj c).
    destruct (first_empty_exists s (Z.of_nat index + 2)) as [k Hk].
    destruct (save_candidate_existing existing now s t' d' index k Hidx Hk)
      as [Hmax _].
    rewrite Hmax in IH; [done|].
    apply Hcov. by apply index_of_Some in Hidx as [_ ?].
  - rewrite filter_cons_True in Hj by done.
    destruct (save_candidate_new existing now s t' d' Hidx) as [Hmax Hval].
    destruct j as [|j].
    + injection Hj as -> ->.
      replace (max_row s + 1 + Z.of_nat 0) with (max_row s + 1) by lia.
      rewrite reconcile_frame; [| done | lia |].
      * rewrite Hval, above_max_row by lia.
        repeat case_decide; try done; lia.
      * intros t' index _ [_ Hlt]%index_of_Some. specialize (Hcov index Hlt).
        lia.
    + specialize (IH _ j Hs' Hj c). rewrite Hmax in IH.
      by replace (max_row s + 1 + Z.of_nat (S j))
        with (max_row s + 1 + 1 + Z.of_nat j) by lia.
Qed.

(** A title of the table that occurs once in the batch: its row is
    changed by its own turn only. *)
Lemma reconcile_existing_once (s : Sheet.t) (pre post : list (string * string))
    (t d : string) (index k : nat) :
  snapshot existing s →
  index_of t existing = Some index →
  t ∉ pre.*1 → t ∉ post.*1 →
  first_empty s (Z.of_nat index + 2) k →
  ∀ c, cell_value (reconcile existing now s (pre ++ (t, d) :: post))
                  (Z.of_nat index + 2) c =
         if decide (Some d ≠
                    cell_value s (Z.of_nat index + 2) (slot_column k - 1))
         then if decide (c = slot_column k) then Some now
              else if decide (c = slot_column k + 1) then Some d
              else cell_value s (Z.of_nat index + 2) c
         else cell_value s (Z.of_nat index + 2) c.
Proof.
  intros Hs Hidx Hpre Hpost Hk c.
  set (row := Z.of_nat index + 2) in *.
  pose proof (reconcile_snapshot s pre Hs) as Hs1.
  set (s1 := reconcile existing now s pre) in *.
  assert (row ≤ max_row s) as Hrow.
  { destruct Hs as [Hcov _]. apply Hcov. by apply index_of_Some in Hidx as [_ ?]. }
  assert (∀ c, cell_value s1 row c = cell_value s row c) as Hsame.
  { intros c'. apply reconcile_frame; [done|done|].
    intros t' index' Hin Hidx' Heq.
    assert (index' = index) as -> by lia.
    apply Hpre. by rewrite (index_of_inj _ _ _ _ Hidx Hidx'). }
  assert (first_empty s1 row k) as Hk1.
  { destruct Hk as [Hfull Hnone]. split.
    - intros j Hj. rewrite Hsame. by apply Hfull.
    - by rewrite Hsame. }
  rewrite reconcile_app. fold s1. simpl.
  assert (row ≤ max_row s1) as Hrow1.
  { unfold s1. rewrite reconcile_max_row by done. lia. }
  rewrite reconcile_frame.
  - destruct (save_candidate_existing existing now s1 t d index k Hidx Hk1)
      as [_ ->].
    fold row. rewrite !Hsame.
    repeat case_decide; try done; try lia; tauto.
  - by apply save_candidate_snapshot.
  - rewrite save_candidate_max_row by done. lia.
  - intros t' index' Hin Hidx' Heq.
    assert (index' = index) as -> by lia.
    apply Hpost. by rewrite (index_of_inj _ _ _ _ Hidx Hidx').
Qed.

End Batch.

(** ** [save_to_excel] as a whole *)

Section Saving.
Import Sheet SheetFacts.

Lemma save_loop_reconcile (existing : list (option string)) (now : string)
    (titles details : list string) :
  (length titles ≤ length details)%nat →
  ∀ (rest pre : list string) (s : Sheet.t),
    titles = pre ++ rest →
    save_loop existing now titles details
              (seq (length pre) (length rest)) s =
    Ok (reconcile existing now s (zip rest (drop (length pre) details))).
Proof.
  intros Hlen rest. induction rest as [|t rest IH]; intros pre s Heq; [done|].
  assert (titles !! length pre = Some t) as Ht.
  { rewrite Heq. by apply list_lookup_middle. }
  destruct (lookup_lt_is_Some_2 details (length pre)) as [d Hd].
  { apply lookup_lt_Some in Ht. lia. }
  rewrite (drop_S _ _ _ Hd).
  cbn [length seq save_loop]. rewrite Ht, Hd. cbn [from_option bind].
  specialize (IH (pre ++ [t]) (save_candidate existing now s t d)).
  rewrite length_app in IH. cbn [length] in IH.
  replace (length pre + 1)%nat with (S (length pre)) in IH by lia.
  rewrite IH; [done|]. by rewrite <- app_assoc.
Qed.

(** The call returns, and returns the loop on the paired lists. *)
Lemma save_to_excel_Ok (file : option Sheet.t) (now : string)
    (titles details : list string) :
  length titles = length details →
  save_to_excel file now titles details =
  Ok (reconcile (titles_of (load_workbook file)) now
                (existing_titles (load_workbook file)).1
                (zip titles details)).
Proof.
  intros Hlen. unfold save_to_excel.
  pose proof (existing_titles_list (load_workbook file)) as Hl.
  destruct (existing_titles (load_workbook file)) as [s existing].
  simpl in Hl. subst existing. simpl.
  by rewrite (save_loop_reconcile _ _ titles details ltac:(lia) titles [] s).
Qed.

Lemma initial_snapshot (s : Sheet.t) :
  snapshot (titles_of s) (existing_titles s).1.
Proof.
  split.
  - intros index Hlt. rewrite existing_titles_max_row.
    rewrite length_titles_of in Hlt. lia.
  - intros index x Hx. rewrite existing_titles_values.
    rewrite lookup_titles_of in Hx by (by eapply lookup_lt_Some).
    congruence.
Qed.

Lemma initial_well_formed (s : Sheet.t) :
  well_formed s → well_formed (existing_titles s).1.
Proof. apply well_formed_values, existing_titles_values. Qed.

Lemma first_empty_values (s s' : Sheet.t) row k :
  (∀ c, cell_value s' row c = cell_value s row c) →
  first_empty s row k → first_empty s' row k.
Proof.
  intros Hval [Hfull Hnone]. split.
  - intros j Hj. rewrite Hval. by apply Hfull.
  - by rewrite Hval.
Qed.

(** Splitting a batch at the candidate of index [i]. *)
Lemma zip_middle (titles details : list string) i t d :
  titles !! i = Some t → details !! i = Some d →
  zip titles details =
    zip (take i titles) (take i details)
    ++ (t, d) :: zip (drop (S i) titles) (drop (S i) details).
Proof.
  revert titles details. induction i as [|i IH]; intros titles details Ht Hd.
  - destruct titles, details; simplify_eq/=. by rewrite !drop_0.
  - destruct titles as [|t' titles], details as [|d' details]; simplify_eq/=.
    f_equal. by apply IH.
Qed.

Lemma fst_zip_take (titles details : list string) i :
  length titles = length details →
  (zip (take i titles) (take i details)).*1 = take i titles.
Proof. intros Hlen. apply fst_zip. rewrite !length_take. lia. Qed.

Lemma fst_zip_drop (titles details : list string) i :
  length titles = length details →
  (zip (drop i titles) (drop i details)).*1 = drop i titles.
Proof. intros Hlen. apply fst_zip. rewrite !length_drop. lia. Qed.

Lemma well_formed_new_workbook : well_formed new_workbook.
Proof.
  assert (∀ row c, 2 ≤ row → cell_value new_workbook row c = None) as H.
  { intros row c Hrow. apply above_max_row.
    replace (max_row new_workbook) with 1 by (by vm_compute). lia. }
  intros row Hrow. split; [|split].
  - rewrite !H by done. by intros [? ?].
  - by apply H.
  - intros k _. by rewrite !H.
Qed.

(** Every table the script writes has the layout. *)
Lemma save_to_excel_well_formed (file : option Sheet.t) (now : string)
    (titles details : list string) (after : Sheet.t) :
  well_formed (load_workbook file) →
  save_to_excel file now titles details = Ok after →
  well_formed after.
Proof.
  intros Hwf. unfold save_to_excel.
  pose proof (initial_snapshot (load_workbook file)) as Hsnap.
  pose proof (initial_well_formed _ Hwf) as Hwf'.
  pose proof (existing_titles_list (load_workbook file)) as Hl.
  destruct (existing_titles (load_workbook file)) as [s existing].
  simpl in *. subst existing.
  generalize (seq 0 (length titles)). intros indices.
  revert s Hsnap Hwf'. induction indices as [|i indices IH]; intros s Hsnap Hwf'.
  - simpl. by intros [= <-].
  - simpl. destruct (titles !! i) as [t|]; [|done].
    destruct (details !! i) as [d|]; [|done]. simpl.
    apply IH.
    + by apply save_candidate_snapshot.
    + by apply save_candidate_well_formed.
Qed.

(** So has every table that the script has built up from no file. *)
Lemma after_calls_well_formed
    (calls : list (string * (list string * list string))) :
  ∀ file, well_formed (load_workbook file) →
          well_formed (load_workbook (after_calls file calls)).
Proof.
  induction calls as [|[now [ts ds]] calls IH]; intros file Hwf; [done|].
  simpl. apply IH.
  destruct (save_to_excel file now ts ds) as [after|e] eqn:Hsave; simpl.
  - by eapply save_to_excel_well_formed.
  - done.
Qed.

(** The layout is needed: on the hand-edited row the next update
    replaces the note in G2. *)
Example hand_edited_cell_is_replaced :
  Sheet.cell_value (load_workbook file_edited) 2 7 = Some "note"%string
  ∧ ∃ after,
      save_to_excel file_edited T2 ["Seminar X"] ["details v2"] = Ok after
      ∧ Sheet.cell_value after 2 7 = Some "details v2"%string.
Proof. split; [by vm_compute|]. eexists. split; by vm_compute. Qed.

End Saving.

(** ** New titles *)

Section Creation.
Import Sheet SheetFacts.

Lemma created_app existing (l1 l2 : list string) :
  created existing (l1 ++ l2) = created existing l1 ++ created existing l2.
Proof. apply filter_app. Qed.

Lemma created_pairs_lookup existing (pre post : list (string * string))
    (t d : string) :
  index_of t existing = None →
  created_pairs existing (pre ++ (t, d) :: post)
    !! length (created_pairs existing pre) = Some (t, d).
Proof.
  intros Hnew. unfold created_pairs.
  rewrite filter_app, filter_cons_True by done. by apply list_lookup_middle.
Qed.

Lemma created_middle existing (titles : list string) i t :
  titles !! i = Some t → index_of t existing = None →
  (length (created existing (take i titles))
     < length (created existing titles))%nat.
Proof.
  intros Ht Hnew. rewrite <- (take_drop_middle titles i t Ht) at 2.
  rewrite created_app, (created_cons existing t), !length_app.
  assert (created existing [t] = [t]) as ->.
  { unfold created. by rewrite filter_cons_True. }
  simpl. lia.
Qed.

End Creation.

(** C5. A candidate whose title is not among the titles read from the
    table gets one row of its own below the table: the row was empty
    before the call, and after the call it holds the title in column 2,
    the run's timestamp in column 3, the details in column 4 and nothing
    in any other column.  The sheet grows by exactly one row per such
    candidate. *)
Theorem save_to_excel_creates_row (file : option Sheet.t) (now : string)
    (titles details : list string) (i : nat) (t d : string) :
  let before := load_workbook file in
  let new_row :=
    Sheet.max_row before + 1
    + Z.of_nat (length (created (titles_of before) (take i titles))) in
  length titles = length details →
  titles !! i = Some t →
  details !! i = Some d →
  index_of t (titles_of before) = None →
  ∃ after,
    save_to_excel file now titles details = Ok after
    ∧ Sheet.max_row after =
        Sheet.max_row before
        + Z.of_nat (length (created (titles_of before) titles))
    ∧ Sheet.max_row before < new_row ≤ Sheet.max_row after
    ∧ (∀ c, Sheet.cell_value before new_row c = None)
    ∧ ∀ c, Sheet.cell_value after new_row c =
             if decide (c = 2) then Some t
             else if decide (c = 3) then Some now
             else if decide (c = 4) then Some d
             else None.
Proof.
  intros before new_row Hlen Ht Hd Hnew.
  rewrite save_to_excel_Ok by done. eexists. split; [done|].
  fold before. set (existing := titles_of before) in *.
  pose proof (initial_snapshot before) as Hsnap. fold existing in Hsnap.
  pose proof (existing_titles_max_row before) as Hmax.
  set (s0 := (existing_titles before).1) in *.
  assert (Sheet.max_row (reconcile existing now s0 (zip titles details)) =
          Sheet.max_row before + Z.of_nat (length (created existing titles)))
    as Hafter.
  { rewrite reconcile_max_row by done. rewrite fst_zip by lia. lia. }
  pose proof (created_middle existing titles i t Ht Hnew) as Hlt.
  split; [done|]. split; [lia|]. split.
  { intros c. apply SheetFacts.above_max_row. lia. }
  intros c. rewrite (zip_middle titles details i t d Ht Hd).
  pose proof (reconcile_created_row existing now s0 _ _ t d Hsnap
    (created_pairs_lookup existing (zip (take i titles) (take i details))
       (zip (drop (S i) titles) (drop (S i) details)) t d Hnew) c) as Hrow.
  rewrite <- (length_fmap fst), created_pairs_titles, fst_zip_take in Hrow
    by done.
  rewrite Hmax in Hrow. exact Hrow.
Qed.

(** ** Titles of the table *)

Section Occurrence.

Lemma once_not_before (titles details : list string) (i : nat) (t : string) :
  length titles = length details →
  (∀ j, titles !! j = Some t → j = i) →
  t ∉ (zip (take i titles) (take i details)).*1.
Proof.
  intros Hlen Honce. rewrite fst_zip_take by done.
  intros (j & Hj & Hlt)%elem_of_take. apply Honce in Hj. lia.
Qed.

Lemma once_not_after (titles details : list string) (i : nat) (t : string) :
  length titles = length details →
  (∀ j, titles !! j = Some t → j = i) →
  t ∉ (zip (drop (S i) titles) (drop (S i) details)).*1.
Proof.
  intros Hlen Honce. rewrite fst_zip_drop by done.
  intros [j Hj]%list_elem_of_lookup_1. rewrite lookup_drop in Hj.
  apply Honce in Hj. lia.
Qed.

End Occurrence.

(** The row of a title of the table that comes once in the batch. *)
Lemma save_to_excel_existing_row (file : option Sheet.t) (now : string)
    (titles details : list string) (i : nat) (t d : string) (index k : nat) :
  let before := load_workbook file in
  let row := Z.of_nat index + 2 in
  length titles = length details →
  titles !! i = Some t →
  details !! i = Some d →
  (∀ j, titles !! j = Some t → j = i) →
  index_of t (titles_of before) = Some index →
  first_empty before row k →
  ∃ after,
    save_to_excel file now titles details = Ok after
    ∧ ∀ c, Sheet.cell_value after row c =
        if decide (Some d ≠ Sheet.cell_value before row (slot_column k - 1))
        then if decide (c = slot_column k) then Some now
             else if decide (c = slot_column k + 1) then Some d
             else Sheet.cell_value before row c
        else Sheet.cell_value before row c.
Proof.
  intros before row Hlen Ht Hd Honce Hidx Hk.
  rewrite save_to_excel_Ok by done. eexists. split; [done|].
  fold before. set (existing := titles_of before) in *.
  pose proof (initial_snapshot before) as Hsnap. fold existing in Hsnap.
  pose proof (existing_titles_values before) as Hval0.
  set (s0 := (existing_titles before).1) in *.
  assert (first_empty s0 row k) as Hk0.
  { eapply first_empty_values; [|exact Hk]. intros c. apply Hval0. }
  rewrite (zip_middle titles details i t d Ht Hd).
  pose proof (reconcile_existing_once existing now s0 _ _ t d index k Hsnap Hidx
    (once_not_before titles details i t Hlen Honce)
    (once_not_after titles details i t Hlen Honce) Hk0) as Hrow.
  fold row in Hrow. intros c. rewrite Hrow, !Hval0. done.
Qed.

(** The record of an existing title has its creation version. *)
Lemma existing_has_creation (s : Sheet.t) (t : string) (index k : nat) :
  well_formed s →
  index_of t (titles_of s) = Some index →
  first_empty s (Z.of_nat index + 2) k →
  (0 < k)%nat.
Proof.
  intros Hwf Hidx Hk.
  apply (first_empty_positive (titles_of s) (existing_titles s).1 t index k);
    [apply initial_snapshot|by apply initial_well_formed|done|].
  eapply first_empty_values; [|exact Hk].
  intros c. apply existing_titles_values.
Qed.

(** C4. A well-formed table holds a record for the title [t], with [k]
    versions (slots [0 .. k-1] of its row are filled, slot [k] is the
    first empty one).  When [t] comes once in the batch, with details
    that differ from the content of the last version, the call writes
    the timestamp and the details into the two cells of slot [k], which
    were both empty, changes no other cell of the row, and the record
    holds [k + 1] versions afterwards. *)
Theorem save_to_excel_appends_version (file : option Sheet.t) (now : string)
    (titles details : list string) (i : nat) (t d : string) (index k : nat) :
  let before := load_workbook file in
  let row := Z.of_nat index + 2 in
  length titles = length details →
  well_formed before →
  titles !! i = Some t →
  details !! i = Some d →
  (∀ j, titles !! j = Some t → j = i) →
  index_of t (titles_of before) = Some index →
  first_empty before row k →
  Some d ≠ Sheet.cell_value before row (content_column (k - 1)) →
  ∃ after,
    save_to_excel file now titles details = Ok after
    ∧ Sheet.cell_value before row (slot_column k) = None
    ∧ Sheet.cell_value before row (slot_column k + 1) = None
    ∧ Sheet.cell_value after row (slot_column k) = Some now
    ∧ Sheet.cell_value after row (slot_column k + 1) = Some d
    ∧ (∀ c, c ≠ slot_column k → c ≠ slot_column k + 1 →
            Sheet.cell_value after row c = Sheet.cell_value before row c)
    ∧ first_empty after row (S k).
Proof.
  intros before row Hlen Hwf Ht Hd Honce Hidx Hk Hdiff.
  destruct (save_to_excel_existing_row file now titles details i t d index k
              Hlen Ht Hd Honce Hidx Hk) as (after & Hsave & Hrow).
  fold before row in Hrow. exists after. split; [done|].
  pose proof (existing_has_creation before t index k Hwf Hidx Hk) as Hpos.
  destruct (Hwf row ltac:(lia)) as (_ & H5 & Hc).
  destruct Hk as [Hfull Hnone]. destruct (Hc k Hnone) as [Hnone1 Hnone2].
  assert (Some d ≠ Sheet.cell_value before row (slot_column k - 1)) as Hne.
  { destruct k as [|[|k]]; [lia| |].
    - change (slot_column 1 - 1) with 5. by rewrite H5.
    - replace (slot_column (S (S k)) - 1) with (content_column (S (S k) - 1));
        [done|].
      replace (S (S k) - 1)%nat with (S k) by lia.
      unfold content_column, slot_column. lia. }
  split; [done|]. split; [done|].
  split. { rewrite Hrow. by rewrite !decide_True. }
  split. { rewrite Hrow. rewrite decide_True by done.
           rewrite decide_False by lia. by rewrite decide_True. }
  split.
  { intros c Hc1 Hc2. rewrite Hrow. rewrite decide_True by done.
    by rewrite !decide_False. }
  split.
  - intros j Hj. rewrite Hrow. rewrite decide_True by done.
    destruct (decide (j = k)) as [->|Hjk].
    + rewrite decide_True by done. eauto.
    + rewrite !decide_False by (unfold slot_column; lia).
      apply Hfull. lia.
  - rewrite Hrow. rewrite decide_True by done.
    by rewrite !decide_False by (unfold slot_column; lia).
Qed.

(** C9. On a well-formed table the call only adds: a cell that holds a
    value before [save_to_excel] holds the same value after it, whatever
    the batch. *)
Theorem save_to_excel_append_only (file : option Sheet.t) (now : string)
    (titles details : list string) :
  let before := load_workbook file in
  length titles = length details →
  well_formed before →
  ∃ after,
    save_to_excel file now titles details = Ok after
    ∧ ∀ r c v, Sheet.cell_value before r c = Some v →
               Sheet.cell_value after r c = Some v.
Proof.
  intros before Hlen Hwf.
  rewrite save_to_excel_Ok by done. eexists. split; [done|].
  intros r c v Hv. apply reconcile_keeps.
  - apply initial_snapshot.
  - by apply initial_well_formed.
  - by rewrite existing_titles_values.
Qed.

(** ** The scenarios *)

Section Scenarios.

Lemma file_A_saved :
  save_to_excel None T1 ["Seminar X"] ["details v1"]
  = Ok (load_workbook file_A).
Proof. by vm_compute. Qed.

Lemma well_formed_file_A : well_formed (load_workbook file_A).
Proof.
  eapply save_to_excel_well_formed; [|exact file_A_saved].
  exact well_formed_new_workbook.
Qed.

Lemma first_empty_file_A : first_empty (load_workbook file_A) 2 1.
Proof.
  split; [|by vm_compute].
  intros j Hj. replace j with O by lia. vm_compute. eauto.
Qed.

Lemma file_C_saved :
  save_to_excel file_A T2 ["Seminar X"] ["details v2"]
  = Ok (load_workbook file_C).
Proof. by vm_compute. Qed.

Lemma well_formed_file_C : well_formed (load_workbook file_C).
Proof.
  eapply save_to_excel_well_formed; [|exact file_C_saved].
  exact well_formed_file_A.
Qed.

Lemma first_empty_file_C : first_empty (load_workbook file_C) 2 2.
Proof.
  split; [|by vm_compute].
  intros j Hj. destruct j as [|[|j]]; [| |lia]; vm_compute; eauto.
Qed.

Lemma only_title (t : string) :
  ∀ j, [t] !! j = Some t → j = O.
Proof. intros [|j]; [done|]. by destruct j. Qed.

End Scenarios.

(** C5, on scenario A: the first run puts the candidate into row 2. *)
Lemma save_to_excel_creates_row_witness :
  ∃ after,
    save_to_excel None T1 ["Seminar X"] ["details v1"] = Ok after
    ∧ Sheet.cell_value after 2 2 = Some "Seminar X"%string
    ∧ Sheet.cell_value after 2 3 = Some T1
    ∧ Sheet.cell_value after 2 4 = Some "details v1"%string
    ∧ Sheet.cell_value after 2 5 = None.
Proof.
  destruct (save_to_excel_creates_row None T1 ["Seminar X"] ["details v1"]
              O "Seminar X" "details v1"
              eq_refl eq_refl eq_refl eq_refl)
    as (after & Hsave & _ & _ & _ & Hrow).
  exists after. split; [exact Hsave|].
  repeat split.
  - exact (Hrow 2).
  - exact (Hrow 3).
  - exact (Hrow 4).
  - exact (Hrow 5).
Defined.

(** C4, on scenario C: the record of scenario A gets its second
    version. *)
Lemma save_to_excel_appends_version_witness :
  ∃ after,
    save_to_excel file_A T2 ["Seminar X"] ["details v2"] = Ok after
    ∧ Sheet.cell_value after 2 6 = Some T2
    ∧ Sheet.cell_value after 2 7 = Some "details v2"%string
    ∧ first_empty after 2 2.
Proof.
  destruct (save_to_excel_appends_version file_A T2
              ["Seminar X"] ["details v2"] O "Seminar X" "details v2" O 1
              eq_refl well_formed_file_A eq_refl eq_refl
              (only_title "Seminar X") eq_refl
              first_empty_file_A ltac:(vm_compute; discriminate))
    as (after & Hsave & _ & _ & Hts & Hd & _ & Hk).
  exists after. repeat split; [exact Hsave|exact Hts|exact Hd|apply Hk|apply Hk].
Defined.

(** C9, on scenario C: the three cells of scenario A are still there. *)
Lemma save_to_excel_append_only_witness :
  ∃ after,
    save_to_excel file_A T2 ["Seminar X"] ["details v2"] = Ok after
    ∧ Sheet.cell_value after 2 2 = Some "Seminar X"%string
    ∧ Sheet.cell_value after 2 3 = Some T1
    ∧ Sheet.cell_value after 2 4 = Some "details v1"%string.
Proof.
  destruct (save_to_excel_append_only file_A T2 ["Seminar X"] ["details v2"]
              eq_refl well_formed_file_A)
    as (after & Hsave & Hkeep).
  exists after. repeat split; [exact Hsave|..]; apply Hkeep; by vm_compute.
Defined.

(** ** The keys of the table after a call *)

Section Keys.
Import Sheet SheetFacts.




End Keys.




(** ** The layout of the update columns *)

(** C3 as stated fails on scenario C: the first update of the record
    leaves column 5 empty and goes to columns 6 and 7. *)
Lemma first_update_not_in_columns_5_6 :
  save_to_excel file_A T2 ["Seminar X"] ["details v2"]
  = Ok (load_workbook file_C)
  ∧ first_empty (load_workbook file_A) 2 1
  ∧ Sheet.cell_value (load_workbook file_C) 2 5 = None
  ∧ Sheet.cell_value (load_workbook file_C) 2 7 = Some "details v2"%string
  ∧ ¬ pair_written 5 6 (load_workbook file_A) (load_workbook file_C) 2
        T2 "details v2".
Proof.
  split; [exact file_C_saved|]. split; [exact first_empty_file_A|].
  split; [by vm_compute|]. split; [by vm_compute|].
  intros H. specialize (H 5). vm_compute in H. discriminate.
Qed.

(** C3, as amended.  The header of a new workbook names the columns 6
    and 7 for the first update and 8 and 9 for the second, and leaves
    column 5 without a name.  For a title of a well-formed table that
    comes once in the batch: the first update of its record is written
    into columns 6 and 7 of its row and nowhere else in the row; the
    second update, with details that differ from those of the first,
    into columns 8 and 9. *)
Theorem update_pairs_from_column_6 (file : option Sheet.t) (now : string)
    (titles details : list string) (i : nat) (t d : string) (index : nat) :
  let before := load_workbook file in
  let row := Z.of_nat index + 2 in
  length titles = length details →
  well_formed before →
  titles !! i = Some t →
  details !! i = Some d →
  (∀ j, titles !! j = Some t → j = i) →
  index_of t (titles_of before) = Some index →
  (Sheet.cell_value new_workbook 1 5 = None
   ∧ Sheet.cell_value new_workbook 1 6 = Some "Date of Update"%string
   ∧ Sheet.cell_value new_workbook 1 7 = Some "New Seminar Details"%string
   ∧ Sheet.cell_value new_workbook 1 8 = Some "Date of Update 2"%string
   ∧ Sheet.cell_value new_workbook 1 9 = Some "New Seminar Details 2"%string)
  ∧ ∃ after,
      save_to_excel file now titles details = Ok after
      ∧ (first_empty before row 1 →
         pair_written 6 7 before after row now d)
      ∧ (first_empty before row 2 →
         Some d ≠ Sheet.cell_value before row 7 →
         pair_written 8 9 before after row now d).
Proof.
  intros before row Hlen Hwf Ht Hd Honce Hidx.
  split; [by vm_compute|].
  destruct (first_empty_exists before row) as [k Hk].
  destruct (save_to_excel_existing_row file now titles details i t d index k
              Hlen Ht Hd Honce Hidx Hk) as (after & Hsave & Hrow).
  fold before row in Hrow. exists after. split; [done|].
  destruct (Hwf row ltac:(lia)) as (_ & H5 & _). split.
  - intros H1. assert (k = 1%nat) as -> by eauto using first_empty_unique.
    intros c. rewrite Hrow.
    change (slot_column 1 - 1) with 5. change (slot_column 1 + 1) with 7.
    change (slot_column 1) with 6. rewrite H5. by rewrite decide_True.
  - intros H2 Hne. assert (k = 2%nat) as -> by eauto using first_empty_unique.
    intros c. rewrite Hrow.
    change (slot_column 2 - 1) with 7. change (slot_column 2 + 1) with 9.
    change (slot_column 2) with 8. by rewrite decide_True.
Qed.

(** C3, on scenario C and on the update that follows it. *)
Lemma update_pairs_from_column_6_witness :
  (∃ after,
     save_to_excel file_A T2 ["Seminar X"] ["details v2"] = Ok after
     ∧ pair_written 6 7 (load_workbook file_A) after 2 T2 "details v2")
  ∧ (∃ after,
       save_to_excel file_C T3 ["Seminar X"] ["details v3"] = Ok after
       ∧ pair_written 8 9 (load_workbook file_C) after 2 T3 "details v3").
Proof.
  split.
  - destruct (update_pairs_from_column_6 file_A T2
                ["Seminar X"] ["details v2"] O "Seminar X" "details v2" O
                eq_refl well_formed_file_A eq_refl eq_refl
                (only_title "Seminar X") eq_refl)
      as (_ & after & Hsave & Hfirst & _).
    exists after. split; [exact Hsave|]. exact (Hfirst first_empty_file_A).
  - destruct (update_pairs_from_column_6 file_C T3
                ["Seminar X"] ["details v3"] O "Seminar X" "details v3" O
                eq_refl well_formed_file_C eq_refl eq_refl
                (only_title "Seminar X") eq_refl)
      as (_ & after & Hsave & _ & Hsecond).
    exists after. split; [exact Hsave|].
    apply (Hsecond first_empty_file_C). vm_compute. discriminate.
Defined.

(** ** Unchanged candidates *)

(** From its second version on, a record is left alone by a candidate
    that repeats the content of its last version. *)
Lemma save_to_excel_skips_repeated_update (file : option Sheet.t) (now : string)
    (titles details : list string) (i : nat) (t d : string) (index k : nat) :
  let before := load_workbook file in
  let row := Z.of_nat index + 2 in
  length titles = length details →
  titles !! i = Some t →
  details !! i = Some d →
  (∀ j, titles !! j = Some t → j = i) →
  index_of t (titles_of before) = Some index →
  first_empty before row (S (S k)) →
  Sheet.cell_value before row (content_column (S k)) = Some d →
  ∃ after,
    save_to_excel file now titles details = Ok after
    ∧ ∀ c, Sheet.cell_value after row c = Sheet.cell_value before row c.
Proof.
  intros before row Hlen Ht Hd Honce Hidx Hk Hsame.
  destruct (save_to_excel_existing_row file now titles details i t d index
              (S (S k)) Hlen Ht Hd Honce Hidx Hk) as (after & Hsave & Hrow).
  fold before row in Hrow. exists after. split; [done|].
  intros c. rewrite Hrow.
  replace (slot_column (S (S k)) - 1) with (content_column (S k))
    by (unfold content_column, slot_column; lia).
  rewrite Hsame. by rewrite decide_False by (by intros ?).
Qed.

(** C1 fails on scenario B.  The record of scenario A holds its creation
    version only, and the candidate repeats the stored details; the call
    compares them with column 5, which is empty, and writes an update
    into columns 6 and 7. *)
Theorem unchanged_creation_version_is_updated :
  Sheet.cell_value (load_workbook file_A) 2 2 = Some "Seminar X"%string
  ∧ Sheet.cell_value (load_workbook file_A) 2 4 = Some "details v1"%string
  ∧ first_empty (load_workbook file_A) 2 1
  ∧ save_to_excel file_A T2 ["Seminar X"] ["details v1"]
    = Ok (load_workbook file_B)
  ∧ Sheet.cell_value (load_workbook file_B) 2 6 = Some T2
  ∧ Sheet.cell_value (load_workbook file_B) 2 7 = Some "details v1"%string.
Proof.
  split; [by vm_compute|]. split; [by vm_compute|].
  split; [exact first_empty_file_A|].
  repeat split; by vm_compute.
Qed.

(** C2 fails on scenarios A and B.  The first run creates the row; the
    second run, with the same batch, adds an update to it; only a third
    run leaves the row as it is. *)
Theorem second_run_changes_table :
  save_to_excel None T1 ["Seminar X"] ["details v1"]
  = Ok (load_workbook file_A)
  ∧ save_to_excel file_A T2 ["Seminar X"] ["details v1"]
    = Ok (load_workbook file_B)
  ∧ Sheet.cell_value (load_workbook file_A) 2 6 = None
  ∧ Sheet.cell_value (load_workbook file_B) 2 6 = Some T2
  ∧ Sheet.cell_value (load_workbook file_A) 2 7 = None
  ∧ Sheet.cell_value (load_workbook file_B) 2 7 = Some "details v1"%string
  ∧ ∃ third,
      save_to_excel file_B T3 ["Seminar X"] ["details v1"] = Ok third
      ∧ ∀ c, Sheet.cell_value third 2 c
             = Sheet.cell_value (load_workbook file_B) 2 c.
Proof.
  split; [by vm_compute|]. split; [by vm_compute|].
  split; [by vm_compute|]. split; [by vm_compute|].
  split; [by vm_compute|]. split; [by vm_compute|].
  apply (save_to_excel_skips_repeated_update file_B T3
           ["Seminar X"] ["details v1"] O "Seminar X" "details v1" O O
           eq_refl eq_refl eq_refl (only_title "Seminar X") eq_refl).
  - split; [|by vm_compute].
    intros j Hj. destruct j as [|[|j]]; [| |lia]; vm_compute; eauto.
  - by vm_compute.
Qed.

(** ** Scraping *)

Section Scraping.

Lemma scrape_seminar_page_answered (get : string → result response)
    (url : string) (ts ds : list string) (r : response) :
  get url = Ok r →
  scrape_seminar_page get url ts ds =
  Ok (if decide (status_code r = 200)
      then (ts ++ [candidate_title r], ds ++ [candidate_details r])
      else (ts, ds)).
Proof.
  intros Hget. unfold scrape_seminar_page, candidate_title, candidate_details.
  rewrite Hget. simpl. case_decide; [|done].
  by destruct (h1_text r), (sidebar_text r).
Qed.


Lemma scrape_seminar_page_lengths (get : string → result response)
    (url : string) (ts ds ts' ds' : list string) :
  scrape_seminar_page get url ts ds = Ok (ts', ds') →
  length ts = length ds → length ts' = length ds'.
Proof.
  destruct (get url) as [r|e] eqn:Hget.
  - rewrite (scrape_seminar_page_answered get url ts ds r Hget).
    case_decide; intros [= <- <-] Hlen; [|done].
    rewrite !length_app. simpl. lia.
  - unfold scrape_seminar_page. by rewrite Hget.
Qed.

Lemma scrape_all_lengths (requests_get : nat → string → result response)
    (links : list string) :
  ∀ (n : nat) (ts0 ds0 ts ds : list string),
    scrape_all requests_get n links ts0 ds0 = Ok (ts, ds) →
    length ts0 = length ds0 → length ts = length ds.
Proof.
  induction links as [|link links IH]; intros n ts0 ds0 ts ds; simpl.
  - by intros [= <- <-].
  - destruct (scrape_seminar_page (requests_get n) link ts0 ds0)
      as [[ts1 ds1]|e] eqn:Hpage; simpl; [|done].
    intros Hall Hlen. eapply IH; [exact Hall|].
    by eapply scrape_seminar_page_lengths.
Qed.


(** The loop makes one candidate of every page answered with 200, in
    the order of the links, and none of the others. *)
Lemma scrape_all_answers (requests_get : nat → string → result response)
    (links : list string) :
  ∀ (n : nat) (rs : list response) (ts0 ds0 : list string),
    answers requests_get n links = Ok <$> rs →
    scrape_all requests_get n links ts0 ds0 =
    Ok (ts0 ++ (candidate_title <$> filter (λ r, status_code r = 200) rs),
        ds0 ++ (candidate_details <$> filter (λ r, status_code r = 200) rs)).
Proof.
  induction links as [|link links IH]; intros n rs ts0 ds0 Hrs.
  - destruct rs; [|done]. simpl. by rewrite !app_nil_r.
  - destruct rs as [|r rs]; [done|]. injection Hrs as Hr Hrs.
    cbn [scrape_all].
    rewrite (scrape_seminar_page_answered _ link ts0 ds0 r Hr).
    cbn [bind]. rewrite (IH (S n) rs _ _ Hrs).
    destruct (decide (status_code r = 200)) as [H200|H200].
    + rewrite filter_cons_True by done. simpl. by rewrite <- !app_assoc.
    + by rewrite filter_cons_False.
Qed.

(** With lists of equal length the call does not run out of its
    second list. *)
Lemma save_to_excel_in_bounds (file : option Sheet.t) (now : string)
    (ts ds : list string) :
  length ts = length ds → ∃ after, save_to_excel file now ts ds = Ok after.
Proof. intros Hlen. rewrite save_to_excel_Ok by done. eauto. Qed.

End Scraping.

(** C10.  A call of [scrape_seminar_page] that gets a response adds one
    element to each list on status 200 and leaves both as they are on
    any other status.  So the lists that the loop of [main] builds from
    two empty lists have the same length, and [save_to_excel] finds
    [seminar_details[i]] for every index of [seminar_titles]: it returns
    and raises no [IndexError]. *)
Theorem scrape_keeps_lists_paired
    (requests_get : nat → string → result response) (n : nat)
    (links : list string) (ts ds : list string) :
  scrape_all requests_get n links [] [] = Ok (ts, ds) →
  (∀ (get : string → result response) url ts0 ds0 r,
     get url = Ok r →
     ∃ ts1 ds1,
       scrape_seminar_page get url ts0 ds0 = Ok (ts1, ds1)
       ∧ (status_code r = 200 →
          ∃ x y, ts1 = ts0 ++ [x] ∧ ds1 = ds0 ++ [y])
       ∧ (status_code r ≠ 200 → ts1 = ts0 ∧ ds1 = ds0))
  ∧ length ts = length ds
  ∧ (∀ i, (i < length ts)%nat → is_Some (ds !! i))
  ∧ ∀ file now, ∃ after, save_to_excel file now ts ds = Ok after.
Proof.
  intros Hall.
  assert (length ts = length ds) as Hlen.
  { by eapply scrape_all_lengths. }
  split; [|split; [done|split]].
  - intros get url ts0 ds0 r Hget.
    rewrite (scrape_seminar_page_answered get url ts0 ds0 r Hget).
    case_decide; eexists _, _; (split; [done|]); split; try done; eauto.
  - intros i Hi. apply lookup_lt_is_Some_2. lia.
  - intros file now. by apply save_to_excel_in_bounds.
Qed.

(** C10, on a run where both pages are served. *)
Lemma scrape_keeps_lists_paired_witness :
  length ["Seminar X"%string] = length ["details v1"%string]
  ∧ ∃ after, save_to_excel None T1 ["Seminar X"] ["details v1"] = Ok after.
Proof.
  destruct (scrape_keeps_lists_paired web_up 1 ["https://ekek.gr/seminaria/logic/"]
              ["Seminar X"] ["details v1"] eq_refl)
    as (_ & Hlen & _ & Hsave).
  split; [exact Hlen|]. exact (Hsave None T1).
Defined.

(** An index out of the second list does raise [IndexError]. *)
Example save_to_excel_IndexError :
  save_to_excel None T1 ["Seminar X"] [] = Raise IndexError.
Proof. by vm_compute. Qed.

(** ** A run of [main] *)

Section Run.

Lemma length_answers (requests_get : nat → string → result response)
    (links : list string) :
  ∀ n, length (answers requests_get n links) = length links.
Proof. induction links as [|link links IH]; intros n; simpl; [done|]. by rewrite IH. Qed.


(** With links to scrape, [main] hands the scraped lists to
    [save_to_excel], which returns. *)
Lemma main_scraped (requests_get : nat → string → result response)
    (now : string) (file : option Sheet.t) (links : list string)
    (ts ds : list string) :
  get_seminar_links (requests_get O) LISTING_URL = Ok links →
  links ≠ [] →
  scrape_all requests_get 1 links [] [] = Ok (ts, ds) →
  exit_status (main requests_get now file) = 0
  ∧ saved (main requests_get now file) = Some (ts, ds)
  ∧ Ok <$> file_after (main requests_get now file)
    = Some (save_to_excel file now ts ds).
Proof.
  intros Hlinks Hne Hall. unfold main. rewrite Hlinks.
  destruct links as [|link links]; [done|]. rewrite Hall.
  destruct (save_to_excel_in_bounds file now ts ds) as [after Hsave].
  { by eapply scrape_all_lengths. }
  rewrite Hsave. done.
Qed.

End Run.

(** C6 as stated fails: the listing gives one link, its page answers
    404, and [save_to_excel] gets no candidate at all. *)
Lemma missing_page_yields_no_candidate :
  get_seminar_links (web_page_missing O) LISTING_URL
  = Ok ["https://ekek.gr/seminaria/logic/"%string]
  ∧ web_page_missing 1 "https://ekek.gr/seminaria/logic/" = Ok not_found
  ∧ status_code not_found ≠ 200
  ∧ saved (main web_page_missing T1 None) = Some ([], [])
  ∧ length (@nil string) ≠ length ["https://ekek.gr/seminaria/logic/"%string].
Proof. repeat split; by vm_compute. Qed.

(** C6, as amended.  When every request of the run is answered, the
    lists given to [save_to_excel] hold one candidate for every link
    whose page answers 200, in the order of the links, filled with the
    sentinels where the title or the details are missing, and no
    candidate for a link whose page answers another status: there are as
    many candidates as pages answered with 200. *)
Theorem main_one_candidate_per_answered_page
    (requests_get : nat → string → result response) (now : string)
    (file : option Sheet.t) (links : list string) (rs : list response) :
  let pages := filter (λ r, status_code r = 200) rs in
  get_seminar_links (requests_get O) LISTING_URL = Ok links →
  links ≠ [] →
  answers requests_get 1 links = Ok <$> rs →
  saved (main requests_get now file)
  = Some (candidate_title <$> pages, candidate_details <$> pages)
  ∧ length rs = length links
  ∧ length (candidate_title <$> pages) = length pages
  ∧ length (candidate_details <$> pages) = length pages
  ∧ (length pages ≤ length links)%nat
  ∧ (Forall (λ r, status_code r = 200) rs → length pages = length links).
Proof.
  intros pages Hlinks Hne Hrs.
  pose proof (scrape_all_answers requests_get links 1 rs [] [] Hrs) as Hall.
  simpl in Hall. fold pages in Hall.
  destruct (main_scraped requests_get now file links _ _ Hlinks Hne Hall)
    as (_ & Hsaved & _).
  assert (length rs = length links) as Hlen.
  { rewrite <- (length_answers requests_get links 1), Hrs.
    by rewrite length_fmap. }
  split; [done|]. split; [done|]. rewrite !length_fmap.
  split; [done|]. split; [done|]. split.
  - rewrite <- Hlen. apply length_filter.
  - intros Hall200. unfold pages. rewrite <- Hlen.
    clear -Hall200. induction Hall200 as [|r rs' H200 _ IH]; [done|].
    rewrite filter_cons_True by done. simpl. by rewrite IH.
Qed.

(** C6, on a run where both pages are served. *)
Lemma main_one_candidate_per_answered_page_witness :
  saved (main web_up T1 None) = Some (["Seminar X"%string], ["details v1"%string]).
Proof.
  destruct (main_one_candidate_per_answered_page web_up T1 None
              ["https://ekek.gr/seminaria/logic/"%string] [seminar_page]
              ltac:(by vm_compute) ltac:(discriminate) eq_refl)
    as (Hsaved & _).
  exact Hsaved.
Defined.





(** * Further properties *)

(** ** The links of the listing *)

Section Links.

Lemma truthy_nonempty (h : string) : truthy h = true ↔ h ≠ ""%string.
Proof. destruct h; simpl; split; (done || congruence). Qed.

(** One turn of the loop adds the link of the anchor, or nothing. *)
Lemma collect_link_cases (acc : list string) (item : anchor) :
  (∃ link, patras_link item link ∧ collect_link acc item = acc ++ [link])
  ∨ ((∀ link, ¬ patras_link item link) ∧ collect_link acc item = acc).
Proof.
  unfold collect_link, patras_link.
  destruct (find_organizer_label item) as [label|] eqn:Hlabel;
    [|right; split; [intros ? (? & ? & ? & ? & _); congruence|done]].
  destruct (next_sibling_div label) as [value|] eqn:Hvalue;
    [|right; split; [intros ? (? & ? & ? & ? & ? & _); congruence|done]].
  destruct (contains ORGANIZER_NAME value) eqn:Hname;
    [|right; split;
      [intros ? (? & ? & ? & ? & ? & ? & _); congruence|done]].
  destruct (href item) as [h|] eqn:Hhref;
    [|right; split;
      [intros ? (? & ? & ? & ? & ? & ? & ? & _); congruence|done]].
  destruct (truthy h) eqn:Htruthy; simpl.
  - destruct (String.prefix "#" h) eqn:Hhash; simpl.
    + right. split; [|done].
      intros ? (? & ? & ? & ? & ? & ? & ? & ? & ? & _). congruence.
    + left. apply truthy_nonempty in Htruthy.
      destruct (String.prefix "http" h) eqn:Hhttp; simpl;
        eexists; (split; [|done]);
        exists label, value, h; rewrite Hhttp; by repeat split.
  - right. split; [|done].
    intros ? (? & ? & ? & ? & ? & ? & ? & Hne & _).
    assert (truthy h = true) as Ht; [|congruence].
    apply truthy_nonempty. congruence.
Qed.

Lemma collect_links_elem (items : list anchor) :
  ∀ (acc : list string) (link : string),
    link ∈ foldl collect_link acc items ↔
    link ∈ acc ∨ ∃ item, item ∈ items ∧ patras_link item link.
Proof.
  induction items as [|item items IH]; intros acc link; simpl.
  - split; [by left|]. intros [?|(item & Hin & _)]; [done|].
    by apply elem_of_nil in Hin.
  - rewrite IH.
    destruct (collect_link_cases acc item) as [(l & Hl & ->)|[Hno ->]].
    + rewrite elem_of_app, list_elem_of_singleton. split.
      * intros [[?| ->]|(it & Hin & Hit)]; [by left| |].
        -- right. exists item. split; [apply list_elem_of_here|done].
        -- right. exists it. split; [by apply list_elem_of_further|done].
      * intros [?|(it & Hin & Hit)]; [by left; left|].
        apply elem_of_cons in Hin as [->|Hin].
        -- left. right.
           destruct Hl as (la & va & h & _ & _ & _ & H4 & _ & _ & Hl).
           destruct Hit as (la' & va' & h' & _ & _ & _ & H4' & _ & _ & Hit).
           assert (h' = h) as -> by congruence. by rewrite Hl, Hit.
        -- right. eauto.
    + split.
      * intros [?|(it & Hin & Hit)]; [by left|].
        right. exists it. split; [by apply list_elem_of_further|done].
      * intros [?|(it & Hin & Hit)]; [by left|].
        apply elem_of_cons in Hin as [->|Hin]; [by destruct (Hno link)|].
        right. eauto.
Qed.

Lemma collect_links_length (items : list anchor) :
  ∀ acc : list string,
    (length (foldl collect_link acc items) ≤ length acc + length items)%nat.
Proof.
  induction items as [|item items IH]; intros acc; simpl; [lia|].
  specialize (IH (collect_link acc item)).
  destruct (collect_link_cases acc item) as [(l & _ & Heq)|[_ Heq]];
    rewrite Heq in *; [rewrite length_app in IH; simpl in IH|]; lia.
Qed.

End Links.

(** X1.  On a listing answered with 200 the links returned are those of
    the anchors of the University of Patras and no others, at most one
    per anchor. *)
Theorem get_seminar_links_of_patras (get : string → result response)
    (url : string) (r : response) :
  get url = Ok r →
  status_code r = 200 →
  ∃ links,
    get_seminar_links get url = Ok links
    ∧ (∀ link, link ∈ links ↔
         ∃ item, item ∈ seminar_items r ∧ patras_link item link)
    ∧ (length links ≤ length (seminar_items r))%nat.
Proof.
  intros Hget H200. unfold get_seminar_links. rewrite Hget. simpl.
  rewrite decide_False by (by intros ?). eexists. split; [done|]. split.
  - intros link. rewrite collect_links_elem. split.
    + intros [Hin|?]; [by apply elem_of_nil in Hin|done].
    + by right.
  - apply (collect_links_length (seminar_items r) []).
Qed.

Lemma get_seminar_links_of_patras_witness :
  ∃ links,
    get_seminar_links (web_up O) LISTING_URL = Ok links
    ∧ (length links ≤ 1)%nat.
Proof.
  destruct (get_seminar_links_of_patras (web_up O) LISTING_URL listing_page
              eq_refl eq_refl) as (links & Hlinks & _ & Hlen).
  exists links. split; [exact Hlinks|exact Hlen].
Defined.

(** ** A run without candidates *)

(** X2.  When there are links but no page answers 200, [save_to_excel]
    is still called, with two empty lists: the workbook is written (and
    created with its header when there was no file), with every cell as
    [load_workbook] gave it, and the exit status is 0. *)
Theorem main_all_pages_missing
    (requests_get : nat → string → result response) (now : string)
    (file : option Sheet.t) (links : list string) (rs : list response) :
  get_seminar_links (requests_get O) LISTING_URL = Ok links →
  links ≠ [] →
  answers requests_get 1 links = Ok <$> rs →
  Forall (λ r, status_code r ≠ 200) rs →
  ∃ after,
    main requests_get now file
    = {| exit_status := 0; file_after := Some after; saved := Some ([], []) |}
    ∧ (∀ r c, Sheet.cell_value after r c
              = Sheet.cell_value (load_workbook file) r c)
    ∧ Sheet.max_row after = Sheet.max_row (load_workbook file).
Proof.
  intros Hlinks Hne Hrs Hmissing.
  pose proof (scrape_all_answers requests_get links 1 rs [] [] Hrs) as Hall.
  assert (filter (λ r, status_code r = 200) rs = []) as Hnone.
  { clear -Hmissing. induction Hmissing as [|r rs H _ IH]; [done|].
    by rewrite filter_cons_False. }
  rewrite Hnone in Hall. simpl in Hall.
  exists (existing_titles (load_workbook file)).1.
  split; [|split].
  - unfold main. rewrite Hlinks. destruct links as [|link links]; [done|].
    rewrite Hall. by rewrite save_to_excel_Ok.
  - apply existing_titles_values.
  - apply existing_titles_max_row.
Qed.

Lemma main_all_pages_missing_witness :
  ∃ after,
    main web_page_missing T1 None
    = {| exit_status := 0; file_after := Some after; saved := Some ([], []) |}
    ∧ Sheet.cell_value after 1 2 = Some "Seminar Title"%string
    ∧ Sheet.max_row after = 1.
Proof.
  destruct (main_all_pages_missing web_page_missing T1 None
              ["https://ekek.gr/seminaria/logic/"%string] [not_found]
              eq_refl ltac:(discriminate) eq_refl
              ltac:(repeat constructor; discriminate))
    as (after & Hmain & Hval & Hmax).
  exists after. split; [exact Hmain|]. split.
  - rewrite Hval. by vm_compute.
  - rewrite Hmax. by vm_compute.
Defined.

(** ** What [save_to_excel] leaves alone *)

Section Untouched.
Import Sheet SheetFacts.

(** A candidate that repeats the last content of a record with an
    update changes nothing. *)
Lemma save_candidate_repeated (existing : list (option string)) (now : string)
    (s : Sheet.t) (t d : string) (index k : nat) :
  index_of t existing = Some index →
  first_empty s (Z.of_nat index + 2) (S (S k)) →
  cell_value s (Z.of_nat index + 2) (content_column (S k)) = Some d →
  ∀ r c, cell_value (save_candidate existing now s t d) r c = cell_value s r c.
Proof.
  intros Hidx Hk Hsame r c.
  destruct (save_candidate_existing existing now s t d index (S (S k)) Hidx Hk)
    as [_ ->].
  replace (slot_column (S (S k)) - 1) with (content_column (S k))
    by (unfold content_column, slot_column; lia).
  rewrite Hsame. by rewrite decide_False by (by intros ?).
Qed.

Lemma reconcile_repeated (existing : list (option string)) (now : string)
    (batch : list (string * string)) :
  ∀ s : Sheet.t,
    snapshot existing s →
    (∀ t d, (t, d) ∈ batch →
       ∃ index k,
         index_of t existing = Some index
         ∧ first_empty s (Z.of_nat index + 2) (S (S k))
         ∧ cell_value s (Z.of_nat index + 2) (content_column (S k)) = Some d) →
    (∀ r c, cell_value (reconcile existing now s batch) r c = cell_value s r c)
    ∧ max_row (reconcile existing now s batch) = max_row s.
Proof.
  induction batch as [|[t d] batch IH]; intros s Hs Hall; [done|].
  destruct (Hall t d (list_elem_of_here _ _)) as (index & k & Hidx & Hk & Hd).
  pose proof (save_candidate_repeated existing now s t d index k Hidx Hk Hd)
    as Hval.
  assert (max_row (save_candidate existing now s t d) = max_row s) as Hmax.
  { destruct (save_candidate_existing existing now s t d index _ Hidx Hk)
      as [-> _]; [done|].
    destruct Hs as [Hcov _]. apply Hcov.
    by apply index_of_Some in Hidx as [_ ?]. }
  change (reconcile existing now s ((t, d) :: batch))
    with (reconcile existing now (save_candidate existing now s t d) batch).
  destruct (IH (save_candidate existing now s t d)) as [Hval' Hmax'].
  - by apply save_candidate_snapshot.
  - intros t' d' Hin.
    destruct (Hall t' d' (list_elem_of_further _ _ _ Hin))
      as (index' & k' & Hidx' & Hk' & Hd').
    exists index', k'. split; [done|]. split.
    + eapply first_empty_values; [|exact Hk']. intros c. apply Hval.
    + by rewrite Hval.
  - split; [|lia]. intros r c. by rewrite Hval', Hval.
Qed.

Lemma save_loop_short (existing : list (option string)) (now : string)
    (titles details : list string) :
  (length details < length titles)%nat →
  ∀ (rest pre : list string) (s : Sheet.t),
    titles = pre ++ rest →
    (length pre ≤ length details)%nat →
    save_loop existing now titles details
              (seq (length pre) (length rest)) s = Raise IndexError.
Proof.
  intros Hshort rest. induction rest as [|t rest IH]; intros pre s Heq Hpre.
  - rewrite Heq, app_nil_r in Hshort. lia.
  - assert (titles !! length pre = Some t) as Ht.
    { rewrite Heq. by apply list_lookup_middle. }
    cbn [length seq save_loop]. rewrite Ht. cbn [from_option bind].
    destruct (details !! length pre) as [d|] eqn:Hd; cbn [from_option bind];
      [|done].
    specialize (IH (pre ++ [t]) (save_candidate existing now s t d)).
    rewrite length_app in IH. cbn [length] in IH.
    replace (length pre + 1)%nat with (S (length pre)) in IH by lia.
    apply IH; [by rewrite <- app_assoc|].
    apply lookup_lt_Some in Hd. lia.
Qed.

End Untouched.

(** X3.  [save_to_excel] raises [IndexError] exactly when
    [seminar_details] is shorter than [seminar_titles]; nothing is
    handed to [wb.save] then.  Details beyond the length of the titles
    are never read. *)
Theorem save_to_excel_IndexError_iff (file : option Sheet.t) (now : string)
    (titles details : list string) :
  (save_to_excel file now titles details = Raise IndexError
   ↔ (length details < length titles)%nat)
  ∧ ((length titles ≤ length details)%nat →
     save_to_excel file now titles details
     = save_to_excel file now titles (take (length titles) details)).
Proof.
  assert (∀ ds : list string, (length titles ≤ length ds)%nat →
            save_to_excel file now titles ds =
            Ok (reconcile (titles_of (load_workbook file)) now
                  (existing_titles (load_workbook file)).1 (zip titles ds)))
    as Hok.
  { intros ds Hlen. unfold save_to_excel.
    pose proof (existing_titles_list (load_workbook file)) as Hl.
    destruct (existing_titles (load_workbook file)) as [s existing].
    simpl in Hl. subst existing. simpl.
    by rewrite (save_loop_reconcile _ _ titles ds Hlen titles [] s). }
  split; [split|].
  - intros Hraise.
    destruct (decide (length details < length titles)%nat) as [?|Hge]; [done|].
    rewrite Hok in Hraise by lia. done.
  - intros Hshort. unfold save_to_excel.
    destruct (existing_titles (load_workbook file)) as [s existing].
    apply (save_loop_short existing now titles details Hshort titles [] s);
      [done|simpl; lia].
  - intros Hlen. rewrite !Hok by (rewrite ?length_take; lia).
    do 2 f_equal. clear -Hlen.
    revert details Hlen. induction titles as [|t titles IH];
      intros [|d details] Hlen; simpl in *; try done; try lia.
    f_equal. apply IH. lia.
Qed.

(** X4.  A row of the table is changed only by a candidate whose title
    [existing_titles.index] finds in that row: every other row that the
    table had before the call has all its cells as before, for any table
    and batch. *)
Theorem save_to_excel_other_rows (file : option Sheet.t) (now : string)
    (titles details : list string) (r : Z) :
  let before := load_workbook file in
  length titles = length details →
  r ≤ Sheet.max_row before →
  (∀ t index, t ∈ titles → index_of t (titles_of before) = Some index →
              r ≠ Z.of_nat index + 2) →
  ∃ after,
    save_to_excel file now titles details = Ok after
    ∧ ∀ c, Sheet.cell_value after r c = Sheet.cell_value before r c.
Proof.
  intros before Hlen Hr Hother. rewrite save_to_excel_Ok by done.
  eexists. split; [done|]. fold before. intros c.
  rewrite reconcile_frame.
  - apply existing_titles_values.
  - apply initial_snapshot.
  - by rewrite existing_titles_max_row.
  - rewrite fst_zip by lia. exact Hother.
Qed.

Lemma save_to_excel_other_rows_witness :
  ∃ after,
    save_to_excel file_twice T2 ["Seminar X"] ["details v2"] = Ok after
    ∧ ∀ c, Sheet.cell_value after 3 c
           = Sheet.cell_value (load_workbook file_twice) 3 c.
Proof.
  apply (save_to_excel_other_rows file_twice T2 ["Seminar X"] ["details v2"] 3
           eq_refl ltac:(by vm_compute)).
  intros t index Hin Hidx. apply list_elem_of_singleton in Hin. subst t.
  vm_compute in Hidx. injection Hidx as <-. discriminate.
Defined.

(** ** Repeated runs *)

(** X5.  A batch in which every candidate repeats the content of the
    last version of a record that has at least one update changes
    nothing: all cells and [max_row] are as [load_workbook] gave them.
    A run repeated with the same batch is a no-op from then on. *)
Theorem save_to_excel_repeated_batch (file : option Sheet.t) (now : string)
    (titles details : list string) :
  let before := load_workbook file in
  length titles = length details →
  (∀ i t d, titles !! i = Some t → details !! i = Some d →
     ∃ index k,
       index_of t (titles_of before) = Some index
       ∧ first_empty before (Z.of_nat index + 2) (S (S k))
       ∧ Sheet.cell_value before (Z.of_nat index + 2) (content_column (S k))
         = Some d) →
  ∃ after,
    save_to_excel file now titles details = Ok after
    ∧ (∀ r c, Sheet.cell_value after r c = Sheet.cell_value before r c)
    ∧ Sheet.max_row after = Sheet.max_row before.
Proof.
  intros before Hlen Hall. rewrite save_to_excel_Ok by done.
  eexists. split; [done|]. fold before.
  pose proof (existing_titles_values before) as Hval.
  destruct (reconcile_repeated (titles_of before) now (zip titles details)
              (existing_titles before).1) as [Hsame Hmax].
  - apply initial_snapshot.
  - intros t d [i Hi]%list_elem_of_lookup_1.
    apply lookup_zip_with_Some in Hi as (t' & d' & [= <- <-] & Ht & Hd).
    destruct (Hall i t d Ht Hd) as (index & k & Hidx & Hk & Hlast).
    exists index, k. split; [done|]. split.
    + eapply first_empty_values; [|exact Hk]. intros c. apply Hval.
    + by rewrite Hval.
  - split.
    + intros r c. by rewrite Hsame.
    + by rewrite Hmax, existing_titles_max_row.
Qed.

Lemma save_to_excel_repeated_batch_witness :
  ∃ after,
    save_to_excel file_B T3 ["Seminar X"] ["details v1"] = Ok after
    ∧ Sheet.cell_value after 2 6 = Some T2
    ∧ Sheet.cell_value after 2 8 = None.
Proof.
  destruct (save_to_excel_repeated_batch file_B T3
              ["Seminar X"] ["details v1"] eq_refl)
    as (after & Hsave & Hsame & _).
  - intros [|i] t d Ht Hd; [|by destruct i].
    injection Ht as <-. injection Hd as <-.
    exists O, O. split; [reflexivity|]. split; [|by vm_compute].
    split; [|by vm_compute].
    intros j Hj. destruct j as [|[|j]]; [| |lia]; vm_compute; eauto.
  - exists after. split; [exact Hsave|]. split; rewrite Hsame; by vm_compute.
Defined.
